(** * control.matlab: the MATLAB compatibility wrappers of python-control

    A shallow embedding of [src/matlab.py].  The module is glue: every
    function inspects its argument list, calls routines that live in other
    modules ([statesp], [xferfcn], [freqplot], [timeresp], [ctrlutil],
    [scipy.signal], [numpy]) and reshapes what they return.  The embedding
    therefore represents a wrapper as a finite interaction tree: the nodes
    are the calls the wrapper makes to routines outside the file, the reads
    and writes of the Python object store, and the leaves are [return] and
    [raise].  Every wrapper terminates ([bode]'s loop consumes one argument
    per round), so the trees are an ordinary inductive type. *)

From Stdlib Require Import ZArith QArith String List.
From stdpp Require Import gmap strings list fin_maps fin_sets.

Local Set Warnings "-clear-no-such-hyp".
Local Open Scope string_scope.

(** ** Python values and the object store *)

Definition loc := positive.

(** Immutable values are kept by value; mutable objects (class instances
    and lists) live in the store and are denoted by a reference.  A float
    is carried as the rational it stands for: the file itself does no
    arithmetic, it only tests floats and passes them on. *)
Unset Elimination Schemes.
Inductive value : Type :=
| VNone
| VBool (b : bool)
| VInt (n : Z)
| VFloat (q : Q)
| VStr (s : string)
| VTuple (vs : list value)
| VMethod (name : string)      (* a bound method object *)
| VRef (l : loc).
Set Elimination Schemes.

(** What [isinstance] can tell about the class of an instance: the library
    class it derives from, if any. *)
Inductive base := BStateSpace | BTransferFunction | BNdarray | BObject.

Global Instance base_eq_dec : EqDecision base.
Proof. solve_decision. Defined.

(** A class: the library base it derives from and whether it defines the
    method [__iter__].  Classes hold no data of their own. *)
Record pyclass := { cls_base : base; cls_iter : bool }.

(** A stored object: an instance with its own attribute dictionary
    ([__dict__]), or a list. *)
Inductive obj : Type :=
| OInstance (c : pyclass) (d : gmap string value)
| OList (items : list value).

Abbreviation heap := (gmap loc obj).
Abbreviation kwargs := (gmap string value).

(** ** Exceptions *)

Inductive exn :=
| ValueError
| TypeError
| IndexError
| AttributeError
| ControlArgument              (* exception.ControlArgument *)
| ExternalError (name : string). (* anything else a routine outside the file raises *)

Global Instance exn_eq_dec : EqDecision exn.
Proof. solve_decision. Defined.

(** ** Routines outside the file *)

Inductive delegate :=
| D_StateSpace                   (* statesp.StateSpace(...) *)
| D_TransferFunction             (* xferfcn.TransferFunction(...) *)
| D_convertToStateSpace          (* statesp._convertToStateSpace *)
| D_convertToTransferFunction    (* xferfcn._convertToTransferFunction *)
| D_rss_generate                 (* statesp._rss_generate *)
| D_zpk2ss                       (* scipy.signal.zpk2ss *)
| D_logspace                     (* scipy.logspace *)
| D_issys                        (* ctrlutil.issys *)
| D_freqplot_bode                (* freqplot.bode *)
| D_freqplot_margin              (* freqplot.margin *)
| D_nichols_grid                 (* nichols.nichols_grid *)
| D_RootLocus                    (* rlocus.RootLocus *)
| D_StepResponse                 (* timeresp.StepResponse *)
| D_ImpulseResponse              (* timeresp.ImpulseResponse *)
| D_InitialResponse              (* timeresp.InitialResponse *)
| D_ForcedResponse               (* timeresp.ForcedResponse *)
| D_method (name : string)       (* obj.name(...): a method of an object, receiver first *)
| D_matrix_I                     (* numpy.matrix.I, the inverse property *)
| D_mul                          (* operator * on objects *)
| D_sub                          (* operator - on objects *)
| D_eq.                          (* operator == on objects *)

Global Instance delegate_eq_dec : EqDecision delegate.
Proof. solve_decision. Defined.

(** ** Wrapper programs *)

Inductive prog (A : Type) : Type :=
| Ret (a : A)
| Raise (e : exn)
    (* a [raise] statement of matlab.py *)
| Fault (e : exn)
    (* an exception the interpreter raises while it runs an operation of
       matlab.py: indexing, unpacking, attribute access, a repeated keyword *)
| Call (d : delegate) (args : list value) (kw : kwargs) (k : value → prog A)
| GetHeap (k : heap → prog A)
| PutHeap (h : heap) (k : prog A)
| GetGlobal (x : string) (k : option value → prog A)
| SetGlobal (x : string) (v : value) (k : prog A)
| Print (line : string) (k : prog A).

Arguments Ret {A} a.
Arguments Raise {A} e.
Arguments Fault {A} e.
Arguments Call {A} d args kw k.
Arguments GetHeap {A} k.
Arguments PutHeap {A} h k.
Arguments GetGlobal {A} x k.
Arguments SetGlobal {A} x v k.
Arguments Print {A} line k.

Fixpoint prog_bind {A B} (f : A → prog B) (p : prog A) : prog B :=
  match p with
  | Ret a => f a
  | Raise e => Raise e
  | Fault e => Fault e
  | Call d args kw k => Call d args kw (λ v, prog_bind f (k v))
  | GetHeap k => GetHeap (λ h, prog_bind f (k h))
  | PutHeap h k => PutHeap h (prog_bind f k)
  | GetGlobal x k => GetGlobal x (λ v, prog_bind f (k v))
  | SetGlobal x v k => SetGlobal x v (prog_bind f k)
  | Print s k => Print s (prog_bind f k)
  end.

Global Instance prog_mret : MRet prog := @Ret.
Global Instance prog_mbind : MBind prog := @prog_bind.

(** A call whose result is returned as it is. *)
Definition call (d : delegate) (args : list value) (kw : kwargs) : prog value :=
  Call d args kw Ret.

(** ** Operations of the interpreter used by the file *)

(** Truth value of an object, as [if] tests it.  Instances are true (no
    class of the model overrides truth testing). *)
Definition py_truthy (h : heap) (v : value) : bool :=
  match v with
  | VNone => false
  | VBool b => b
  | VInt n => negb (n =? 0)%Z
  | VFloat q => negb (Qeq_bool q 0)
  | VStr s => negb (String.eqb s "")
  | VTuple vs => negb (bool_decide (vs = []))
  | VMethod _ => true
  | VRef l =>
      match h !! l with
      | Some (OList items) => negb (bool_decide (items = []))
      | _ => true
      end
  end.

(** Attribute lookup [getattr(v, name)]; [None] when the attribute is
    missing.  An instance answers from its own dictionary first and then
    from its class.  Of the attributes of built-in values only [__iter__] is
    ever asked for by the file: tuples and lists have it, and (the file
    being Python 2 code) strings and numbers do not. *)
Definition py_getattr (h : heap) (v : value) (name : string) : option value :=
  match v with
  | VTuple _ =>
      if String.eqb name "__iter__" then Some (VMethod "__iter__") else None
  | VRef l =>
      match h !! l with
      | Some (OInstance c d) =>
          match d !! name with
          | Some x => Some x
          | None =>
              if cls_iter c && String.eqb name "__iter__"
              then Some (VMethod "__iter__") else None
          end
      | Some (OList _) =>
          if String.eqb name "__iter__" then Some (VMethod "__iter__") else None
      | None => None
      end
  | _ => None
  end.

(** [getattr(v, name, dflt)] *)
Definition py_getattr_default (h : heap) (v : value) (name : string)
    (dflt : value) : value :=
  default dflt (py_getattr h v name).

(** [isinstance(v, C)] for a library class [C] *)
Definition py_isinstance (h : heap) (v : value) (b : base) : bool :=
  match v with
  | VRef l =>
      match h !! l with
      | Some (OInstance c _) => bool_decide (cls_base c = b)
      | _ => false
      end
  | _ => false
  end.

(** [isinstance(v, str)] *)
Definition py_is_str (v : value) : bool :=
  match v with VStr _ => true | _ => false end.

(** [isinstance(v, (list, np.ndarray))] *)
Definition py_is_list_or_ndarray (h : heap) (v : value) : bool :=
  match v with
  | VRef l =>
      match h !! l with
      | Some (OList _) => true
      | Some (OInstance c _) => bool_decide (cls_base c = BNdarray)
      | None => false
      end
  | _ => false
  end.

(** [v.name] *)
Definition attr (v : value) (name : string) : prog value :=
  GetHeap (λ h,
    match py_getattr h v name with
    | Some x => Ret x
    | None => Fault AttributeError
    end).

Definition chars (s : string) : list value :=
  (λ c, VStr (String c EmptyString)) <$> list_ascii_of_string s.

(** [v[i]] for a literal index [i].  Instances answer through their own
    [__getitem__], which is code outside the file. *)
Definition index (v : value) (i : nat) : prog value :=
  match v with
  | VTuple vs =>
      match vs !! i with Some x => Ret x | None => Fault IndexError end
  | VStr s =>
      match chars s !! i with Some x => Ret x | None => Fault IndexError end
  | VRef l =>
      GetHeap (λ h,
        match h !! l with
        | Some (OList items) =>
            match items !! i with Some x => Ret x | None => Fault IndexError end
        | _ => call (D_method "__getitem__") [v; VInt (Z.of_nat i)] ∅
        end)
  | _ => Fault TypeError
  end.

Definition exactly (n : nat) (items : list value) : prog (list value) :=
  if decide (length items = n) then Ret items else Fault ValueError.

(** [x1, ..., xn = v]: unpacking a sequence of exactly [n] items.
    Instances are iterated by their own iterator, code outside the file,
    asked through the method [__iter__] for the items as a tuple. *)
Definition unpack (n : nat) (v : value) : prog (list value) :=
  match v with
  | VTuple vs => exactly n vs
  | VStr s => exactly n (chars s)
  | VRef l =>
      GetHeap (λ h,
        match h !! l with
        | Some (OList items) => exactly n items
        | _ =>
            Call (D_method "__iter__") [v] ∅ (λ r,
              match r with
              | VTuple vs => exactly n vs
              | _ => Fault TypeError
              end)
        end)
  | _ => Fault TypeError
  end.

(** [f(..., name = v, **keywords)]: a keyword given twice is a [TypeError]
    raised by the call itself, before [f] is entered. *)
Definition with_keyword (name : string) (v : value) (keywords : kwargs)
    : prog kwargs :=
  match keywords !! name with
  | Some _ => Fault TypeError
  | None => Ret (<[name := v]> keywords)
  end.

(** A new object in the store. *)
Definition alloc (o : obj) : prog value :=
  GetHeap (λ h,
    let l := fresh (dom h) in
    PutHeap (<[l := o]> h) (Ret (VRef l))).

(** ** copy.deepcopy on the object store *)

(** The references a value holds. *)
Fixpoint refs (v : value) : gset loc :=
  match v with
  | VRef l => {[ l ]}
  | VTuple vs => ⋃ (refs <$> vs)
  | _ => ∅
  end.

Definition obj_values (o : obj) : list value :=
  match o with
  | OInstance _ d => (map_to_list d).*2
  | OList items => items
  end.

Definition obj_refs (o : obj) : gset loc := ⋃ (refs <$> obj_values o).

(** Redirecting references along [ρ]; a reference [ρ] does not know stays. *)
Fixpoint rename (ρ : gmap loc loc) (v : value) : value :=
  match v with
  | VRef l => VRef (default l (ρ !! l))
  | VTuple vs => VTuple (rename ρ <$> vs)
  | _ => v
  end.

Definition rename_obj (ρ : gmap loc loc) (o : obj) : obj :=
  match o with
  | OInstance c d => OInstance c (rename ρ <$> d)
  | OList items => OList (rename ρ <$> items)
  end.

(** One more level of the objects a set of objects points to. *)
Definition successors (h : heap) (X : gset loc) : gset loc :=
  X ∪ set_bind (λ l, from_option obj_refs ∅ (h !! l)) X.

Fixpoint closure (n : nat) (h : heap) (X : gset loc) : gset loc :=
  match n with
  | O => X
  | S n => closure n h (successors h X)
  end.

(** The objects [deepcopy(v)] visits: everything [v] reaches. *)
Definition reachable (h : heap) (v : value) : gset loc :=
  closure (size (dom h)) h (refs v).

(** [deepcopy(v)]: every object [v] reaches is copied once to a new place
    (so sharing inside the copy mirrors sharing inside the original), and
    the references inside the copies are redirected to the copies. *)
Definition copy_plan (h : heap) (v : value) : list (loc * loc) :=
  let olds := elements (reachable h v) in
  zip olds (fresh_list (length olds) (dom h)).

Definition copies (h : heap) (ρ : gmap loc loc) (plan : list (loc * loc))
    : list (loc * obj) :=
  omap (λ '(l, l'), (λ o, (l', rename_obj ρ o)) <$> h !! l) plan.

Definition copy_map (h : heap) (v : value) : gmap loc loc :=
  list_to_map (copy_plan h v).

Definition py_deepcopy (h : heap) (v : value) : value * heap :=
  let ρ := copy_map h v in
  (rename ρ v, list_to_map (copies h ρ (copy_plan h v)) ∪ h).

Definition deepcopy (v : value) : prog value :=
  GetHeap (λ h, let '(r, h') := py_deepcopy h v in PutHeap h' (Ret r)).

(** ** The functions of matlab.py *)

Definition tf2ss (args : list value) : prog value :=
  match args with
  | [num; den] =>
      sys ← call D_TransferFunction [num; den] ∅;
      call D_convertToStateSpace [sys] ∅
  | [sys] =>
      GetHeap (λ h,
        if negb (py_isinstance h sys BTransferFunction) then Raise TypeError
        else call D_convertToStateSpace [sys] ∅)
  | _ => Raise ValueError
  end.

Definition ss2tf (args : list value) : prog value :=
  match args with
  | [a; b; c; d] =>
      sys ← call D_StateSpace [a; b; c; d] ∅;
      call D_convertToTransferFunction [sys] ∅
  | [sys] =>
      GetHeap (λ h,
        if py_isinstance h sys BStateSpace
        then call D_convertToTransferFunction [sys] ∅
        else Raise TypeError)
  | _ => Raise ValueError
  end.

Definition ss (args : list value) : prog value :=
  match args with
  | [a; b; c; d] => call D_StateSpace [a; b; c; d] ∅
  | [sys] =>
      GetHeap (λ h,
        if py_isinstance h sys BStateSpace then deepcopy sys
        else if py_isinstance h sys BTransferFunction then tf2ss [sys]
        else Raise TypeError)
  | _ => Raise ValueError
  end.

Definition tf (args : list value) : prog value :=
  match args with
  | [num; den] => call D_TransferFunction [num; den] ∅
  | [sys] =>
      GetHeap (λ h,
        if py_isinstance h sys BStateSpace then ss2tf [sys]
        else if py_isinstance h sys BTransferFunction then deepcopy sys
        else Raise TypeError)
  | _ => Raise ValueError
  end.

(** [rss(states=1, inputs=1, outputs=1)] *)
Definition rss (states inputs outputs : value) : prog value :=
  call D_rss_generate [states; inputs; outputs; VStr "c"] ∅.

(** [drss(states=1, inputs=1, outputs=1)] *)
Definition drss (states inputs outputs : value) : prog value :=
  call D_rss_generate [states; inputs; outputs; VStr "d"] ∅.

Definition pole (sys : value) : prog value :=
  call (D_method "pole") [sys] ∅.

Definition zero (sys : value) : prog value :=
  call (D_method "zero") [sys] ∅.

Definition evalfr (sys omega : value) : prog value :=
  call (D_method "evalfr") [sys; omega] ∅.

Definition freqresp (sys omega : value) : prog value :=
  call (D_method "freqresp") [sys; omega] ∅.

(** The argument scan of [bode]: [rest] is [args[i:]]; the result is
    [syslist], [plotstyle], [omega] and what is left of [args] when the
    loop ends. *)
Fixpoint bode_scan (rest syslist plotstyle : list value)
    : prog (list value * list value * value * list value) :=
  match rest with
  | [] => Ret (syslist, plotstyle, VNone, [])
  | a :: rest' =>
      Call D_issys [a] ∅ (λ r,
        GetHeap (λ h,
          if py_truthy h r then
            match rest' with
            | b :: rest'' =>
                if py_is_str b
                then bode_scan rest'' (syslist ++ [a]) (plotstyle ++ [b])
                else bode_scan rest' (syslist ++ [a]) plotstyle
            | [] => bode_scan rest' (syslist ++ [a]) plotstyle
            end
          else
            GetHeap (λ h',
              if py_is_list_or_ndarray h' a
              then Ret (syslist, plotstyle, a, rest')
              else Raise ControlArgument)))
  end.

Definition bode_warning : string :=
  "Warning (matabl.bode): plot styles not implemented".

(** The MATLAB calling format of [bode]: scan the arguments, check what
    was found and call [freqplot.bode].  The list [syslist] the source
    builds is put in the store when it is handed over. *)
Definition bode_matlab (args : list value) (keywords : kwargs) : prog value :=
  '(syslist, plotstyle, omega, rest) ← bode_scan args [] [];
  if negb (bool_decide (rest = [])) then Raise ControlArgument
  else if negb (length plotstyle =? 0)%nat
          && negb (length syslist =? length plotstyle)%nat
  then Raise ControlArgument
  else
    (if negb (length plotstyle =? 0)%nat then Print bode_warning else id)
      (systems ← alloc (OList syslist);
       call D_freqplot_bode [systems; omega] keywords).

(** [bode], called with positional arguments [args] and keyword arguments
    [keywords]. *)
Definition bode (args : list value) (keywords : kwargs) : prog value :=
  match args with
  | [] => Fault IndexError
  | a0 :: _ =>
      GetHeap (λ h,
        if py_truthy h (py_getattr_default h a0 "__iter__" (VBool false))
        then call D_freqplot_bode args keywords
        else bode_matlab args keywords)
  end.

Definition ngrid : prog value :=
  _ ← call D_nichols_grid [] ∅; Ret VNone.

(** [klist == None]; an instance compares through its own [__eq__]. *)
Definition eq_None (v : value) : prog bool :=
  match v with
  | VNone => Ret true
  | VRef l =>
      GetHeap (λ h,
        match h !! l with
        | Some (OInstance _ _) =>
            r ← call D_eq [v; VNone] ∅;
            GetHeap (λ h', Ret (py_truthy h' r))
        | _ => Ret false
        end)
  | _ => Ret false
  end.

(** [rlocus(sys, klist = None, **keywords)] *)
Definition rlocus (sys klist : value) (keywords : kwargs) : prog value :=
  unset ← eq_None klist;
  klist ← (if unset : bool then call D_logspace [VInt (-3); VInt 3] ∅
           else Ret klist);
  rlist ← call D_RootLocus [sys; klist] keywords;
  Ret (VTuple [rlist; klist]).

Definition margin (args : list value) : prog value :=
  margins ← match args with
             | [sys] => call D_freqplot_margin [sys] ∅
             | [_; _; _] => call D_freqplot_margin [VTuple args] ∅
             | _ => Raise ValueError
             end;
  m0 ← index margins 0;
  m1 ← index margins 1;
  m3 ← index margins 3;
  m4 ← index margins 4;
  Ret (VTuple [m0; m1; m3; m4]).

(** [gain = sys.D - sys.C * sys.A.I * sys.B], operands and operators in the
    order Python evaluates them. *)
Definition gain_of (sys : value) : prog value :=
  d ← attr sys "D";
  c ← attr sys "C";
  a ← attr sys "A";
  ai ← call D_matrix_I [a] ∅;
  cai ← call D_mul [c; ai] ∅;
  b ← attr sys "B";
  caib ← call D_mul [cai; b] ∅;
  call D_sub [d; caib] ∅.

(** The first half of [dcgain]: "Convert the parameters to state space
    form". *)
Definition dcgain_system (args : list value) : prog value :=
  match args with
  | [a; b; c; d] => ss [a; b; c; d]
  | [z; p; k] =>
      r ← call D_zpk2ss [z; p; k] ∅;
      abcd ← unpack 4 r;
      ss abcd
  | [num; den] => tf2ss [num; den]
  | [sys] => ss [sys]
  | _ => Raise ValueError
  end.

Definition dcgain (args : list value) : prog value :=
  sys ← dcgain_system args;
  gain_of sys.

(** The simulation routines return what [T, yout = ...] unpacked. *)
Definition as_tuple (n : nat) (r : value) : prog value :=
  items ← unpack n r; Ret (VTuple items).

(** [step(sys, T=None, X0=0., input=0, output=0, **keywords)] *)
Definition step (sys T X0 input output : value) (keywords : kwargs)
    : prog value :=
  kw ← with_keyword "transpose" (VBool true) keywords;
  r ← call D_StepResponse [sys; T; X0; input; output] kw;
  as_tuple 2 r.

(** [impulse(sys, T=None, X0=0., input=0, output=0, **keywords)] *)
Definition impulse (sys T X0 input output : value) (keywords : kwargs)
    : prog value :=
  kw ← with_keyword "transpose" (VBool true) keywords;
  r ← call D_ImpulseResponse [sys; T; X0; input; output] kw;
  as_tuple 2 r.

(** [initial(sys, T=None, X0=0., input=0, output=0, **keywords)] *)
Definition initial (sys T X0 input output : value) (keywords : kwargs)
    : prog value :=
  kw ← with_keyword "transpose" (VBool true) keywords;
  r ← call D_InitialResponse [sys; T; X0; input; output] kw;
  as_tuple 2 r.

(** [lsim(sys, U=0., T=None, X0=0., **keywords)] *)
Definition lsim (sys U T X0 : value) (keywords : kwargs) : prog value :=
  kw ← with_keyword "transpose" (VBool true) keywords;
  r ← call D_ForcedResponse [sys; T; U; X0] kw;
  as_tuple 3 r.

(** ** Running a wrapper against an environment *)

Record state := State {
  st_heap : heap;                    (* the object store *)
  st_globals : gmap string value;    (* module-level variables *)
  st_stdout : list string;           (* lines printed so far *)
}.

Inductive outcome (A : Type) : Type :=
| Returned (a : A)
| Raised (e : exn).
Arguments Returned {A} a.
Arguments Raised {A} e.

(** The routines outside the file: given the arguments and the state they
    answer with a value or an exception, and a new state. *)
Definition env : Type :=
  delegate → list value → kwargs → state → outcome value * state.

Definition set_heap (h : heap) (σ : state) : state :=
  State h (st_globals σ) (st_stdout σ).
Definition set_global (x : string) (v : value) (σ : state) : state :=
  State (st_heap σ) (<[x := v]> (st_globals σ)) (st_stdout σ).
Definition put_line (s : string) (σ : state) : state :=
  State (st_heap σ) (st_globals σ) (st_stdout σ ++ [s]).

Fixpoint run {A} (E : env) (p : prog A) (σ : state) : outcome A * state :=
  match p with
  | Ret a => (Returned a, σ)
  | Raise e => (Raised e, σ)
  | Fault e => (Raised e, σ)
  | Call d args kw k =>
      match E d args kw σ with
      | (Returned v, σ') => run E (k v) σ'
      | (Raised e, σ') => (Raised e, σ')
      end
  | GetHeap k => run E (k (st_heap σ)) σ
  | PutHeap h k => run E k (set_heap h σ)
  | GetGlobal x k => run E (k (st_globals σ !! x)) σ
  | SetGlobal x v k => run E k (set_global x v σ)
  | Print s k => run E k (put_line s σ)
  end.

(** ** Properties of wrapper programs *)

(** [raises p e]: some run of [p] ends in a [raise] statement of the file
    that raises [e], whatever the store holds and whatever the routines
    outside the file answer. *)
Fixpoint raises {A} (p : prog A) (e : exn) : Prop :=
  match p with
  | Ret _ => False
  | Raise e' => e' = e
  | Fault _ => False
  | Call _ _ _ k => ∃ v, raises (k v) e
  | GetHeap k => ∃ h, raises (k h) e
  | PutHeap _ k => raises k e
  | GetGlobal _ k => ∃ v, raises (k v) e
  | SetGlobal _ _ k => raises k e
  | Print _ k => raises k e
  end.

(** [global_free p]: no run of [p] reads or writes a module-level
    variable. *)
Fixpoint global_free {A} (p : prog A) : Prop :=
  match p with
  | Ret _ | Raise _ | Fault _ => True
  | Call _ _ _ k => ∀ v, global_free (k v)
  | GetHeap k => ∀ h, global_free (k h)
  | PutHeap _ k => global_free k
  | GetGlobal _ _ => False
  | SetGlobal _ _ _ => False
  | Print _ k => global_free k
  end.

Definition set_globals (g : gmap string value) (σ : state) : state :=
  State (st_heap σ) g (st_stdout σ).

(** An environment whose routines neither consult nor change the
    module-level variables. *)
Definition env_global_blind (E : env) : Prop :=
  ∀ d args kw σ g,
    E d args kw (set_globals g σ)
    = ((E d args kw σ).1, set_globals g (E d args kw σ).2).

(** An environment whose routines leave the objects that exist alone. *)
Definition env_frame (E : env) : Prop :=
  ∀ d args kw σ l,
    l ∈ dom (st_heap σ) →
    st_heap (E d args kw σ).2 !! l = st_heap σ !! l.

(** A store without dangling references. *)
Definition heap_closed (h : heap) : Prop :=
  map_Forall (λ _ o, obj_refs o ⊆ dom h) h.


(** What an object looks like from outside, references followed to a
    given depth: the identity of the objects met on the way is left out,
    their classes and contents are kept. *)
Unset Elimination Schemes.
Inductive shape : Type :=
| SAtom (v : value)
| STuple (items : list shape)
| SInstance (c : pyclass) (d : gmap string shape)
| SList (items : list shape)
| SDeeper                      (* an object beyond the depth looked at *)
| SDangling.
Set Elimination Schemes.

Fixpoint look_value (deref : loc → shape) (v : value) : shape :=
  match v with
  | VRef l => deref l
  | VTuple vs => STuple (look_value deref <$> vs)
  | _ => SAtom v
  end.

Fixpoint look_at (n : nat) (h : heap) (l : loc) : shape :=
  match n with
  | O => SDeeper
  | S n =>
      match h !! l with
      | Some (OInstance c d) => SInstance c (look_value (look_at n h) <$> d)
      | Some (OList items) => SList (look_value (look_at n h) <$> items)
      | None => SDangling
      end
  end.

Definition look (n : nat) (h : heap) (v : value) : shape :=
  look_value (look_at n h) v.

(** Two values, each in its store, that cannot be told apart by looking. *)
Definition alike (h1 : heap) (v1 : value) (h2 : heap) (v2 : value) : Prop :=
  ∀ n, look n h1 v1 = look n h2 v2.

(** A state whose store has no dangling reference and holds every object
    the values [vs] refer to. *)
Definition well_formed (σ : state) (vs : list value) : Prop :=
  heap_closed (st_heap σ) ∧ Forall (λ v, refs v ⊆ dom (st_heap σ)) vs.

(** Two runs that end alike: in the same exception, or in results that
    cannot be told apart. *)
Definition same_outcome (r1 r2 : outcome value * state) : Prop :=
  match r1.1, r2.1 with
  | Returned v1, Returned v2 => alike (st_heap r1.2) v1 (st_heap r2.2) v2
  | Raised e1, Raised e2 => e1 = e2
  | _, _ => False
  end.

(** An environment whose routines keep the store well formed. *)
Definition env_well_formed (E : env) : Prop :=
  ∀ d kw args σ,
    well_formed σ args →
    match E d args kw σ with
    | (Returned v, σ') => well_formed σ' [v]
    | (Raised _, σ') => heap_closed (st_heap σ')
    end.

(** An environment whose routines answer by what their arguments look like
    and by nothing else: asked twice with arguments that cannot be told
    apart, in whatever states, a routine ends alike. *)
Definition env_extensional (E : env) : Prop :=
  ∀ d kw args1 args2 σ1 σ2,
    well_formed σ1 args1 → well_formed σ2 args2 →
    Forall2 (λ v1 v2, alike (st_heap σ1) v1 (st_heap σ2) v2) args1 args2 →
    same_outcome (E d args1 kw σ1) (E d args2 kw σ2).

(** ** The wrappers by name *)

(** The wrappers that choose what to do by the number of arguments. *)
Inductive arity_wrapper := W_ss | W_ss2tf | W_tf | W_tf2ss | W_margin | W_dcgain.

Definition arity_call (w : arity_wrapper) (args : list value) : prog value :=
  match w with
  | W_ss => ss args
  | W_ss2tf => ss2tf args
  | W_tf => tf args
  | W_tf2ss => tf2ss args
  | W_margin => margin args
  | W_dcgain => dcgain args
  end.

(** The argument counts each of them is documented to accept. *)
Definition accepted (w : arity_wrapper) : list nat :=
  match w with
  | W_ss | W_ss2tf => [1; 4]
  | W_tf | W_tf2ss => [1; 2]
  | W_margin => [1; 3]
  | W_dcgain => [1; 2; 3; 4]
  end.

(** The conversion wrappers. *)
Inductive conversion := C_ss | C_tf | C_ss2tf | C_tf2ss.

Definition convert (w : conversion) (args : list value) : prog value :=
  match w with
  | C_ss => ss args
  | C_tf => tf args
  | C_ss2tf => ss2tf args
  | C_tf2ss => tf2ss args
  end.

(** The simulation wrappers, with their positional parameters in the order
    of the signature: [sys, T, X0, input, output] for [step], [impulse] and
    [initial], and [sys, U, T, X0] for [lsim]. *)
Inductive simulation := S_step | S_impulse | S_initial | S_lsim.

Definition simulate (w : simulation) (params : list value) (keywords : kwargs)
    : prog value :=
  match w, params with
  | S_step, [sys; T; X0; input; output] => step sys T X0 input output keywords
  | S_impulse, [sys; T; X0; input; output] =>
      impulse sys T X0 input output keywords
  | S_initial, [sys; T; X0; input; output] =>
      initial sys T X0 input output keywords
  | S_lsim, [sys; U; T; X0] => lsim sys U T X0 keywords
  | _, _ => Fault TypeError
  end.

(** Every function of the file, applied. *)
Inductive application :=
| A_ss (args : list value)
| A_tf (args : list value)
| A_ss2tf (args : list value)
| A_tf2ss (args : list value)
| A_rss (states inputs outputs : value)
| A_drss (states inputs outputs : value)
| A_pole (sys : value)
| A_zero (sys : value)
| A_evalfr (sys omega : value)
| A_freqresp (sys omega : value)
| A_bode (args : list value) (keywords : kwargs)
| A_ngrid
| A_rlocus (sys klist : value) (keywords : kwargs)
| A_margin (args : list value)
| A_dcgain (args : list value)
| A_step (sys T X0 input output : value) (keywords : kwargs)
| A_impulse (sys T X0 input output : value) (keywords : kwargs)
| A_initial (sys T X0 input output : value) (keywords : kwargs)
| A_lsim (sys U T X0 : value) (keywords : kwargs).

Definition program (c : application) : prog value :=
  match c with
  | A_ss args => ss args
  | A_tf args => tf args
  | A_ss2tf args => ss2tf args
  | A_tf2ss args => tf2ss args
  | A_rss s i o => rss s i o
  | A_drss s i o => drss s i o
  | A_pole sys => pole sys
  | A_zero sys => zero sys
  | A_evalfr sys omega => evalfr sys omega
  | A_freqresp sys omega => freqresp sys omega
  | A_bode args kw => bode args kw
  | A_ngrid => ngrid
  | A_rlocus sys klist kw => rlocus sys klist kw
  | A_margin args => margin args
  | A_dcgain args => dcgain args
  | A_step sys T X0 i o kw => step sys T X0 i o kw
  | A_impulse sys T X0 i o kw => impulse sys T X0 i o kw
  | A_initial sys T X0 i o kw => initial sys T X0 i o kw
  | A_lsim sys U T X0 kw => lsim sys U T X0 kw
  end.

Definition is_bode (c : application) : bool :=
  match c with A_bode _ _ => true | _ => false end.

(** ** The numeric library, abstractly *)

(** The matrix operations [dcgain] relies on: the inverse (undefined for a
    singular matrix), the product and the difference (undefined when the
    shapes do not fit). *)
Record matrix_algebra := {
  mat_inv : value → option value;
  mat_mul : value → value → option value;
  mat_sub : value → value → option value;
}.



(** ** Vocabulary of the statements *)

(** What [margin] hands to [freqplot.margin]: the system, or the three
    arguments as one tuple. *)
Definition margin_input (args : list value) : value :=
  match args with
  | [sys] => sys
  | _ => VTuple args
  end.

(** The classes a conversion wrapper takes a single argument of. *)
Definition converts_from (w : conversion) : list base :=
  match w with
  | C_ss | C_tf => [BStateSpace; BTransferFunction]
  | C_ss2tf => [BStateSpace]
  | C_tf2ss => [BTransferFunction]
  end.

(** The routine of [timeresp] behind each simulation wrapper, the number of
    positional parameters of the wrapper, the positional arguments it
    passes on and the number of results. *)
Definition sim_routine (w : simulation) : delegate :=
  match w with
  | S_step => D_StepResponse
  | S_impulse => D_ImpulseResponse
  | S_initial => D_InitialResponse
  | S_lsim => D_ForcedResponse
  end.

Definition sim_arity (w : simulation) : nat :=
  match w with S_lsim => 4 | _ => 5 end.

Definition sim_forwarded (w : simulation) (params : list value) : list value :=
  match w, params with
  | S_lsim, [sys; U; T; X0] => [sys; T; U; X0]
  | _, _ => params
  end.

Definition sim_results (w : simulation) : nat :=
  match w with S_lsim => 3 | _ => 2 end.


(** [frames E p]: when the routines of [E] leave the existing objects
    alone, so does [p]. *)
Definition frames {A} (E : env) (p : prog A) : Prop :=
  ∀ σ l, l ∈ dom (st_heap σ) → st_heap (run E p σ).2 !! l = st_heap σ !! l.

(** The result of one routine handed to the next one. *)
Definition feed (E : env) (d : delegate) (r : outcome value * state)
    : outcome value * state :=
  match r with
  | (Returned v, σ) => E d [v] ∅ σ
  | (Raised e, σ) => (Raised e, σ)
  end.

(** ** A small environment to run the wrappers in

    Stand-ins for the routines outside the file, for systems with one
    state, one input and one output whose matrices are rational numbers:
    enough to run every wrapper on an example. *)

Module Sample.

Definition scalars : matrix_algebra := {|
  mat_inv a :=
    match a with
    | VFloat q => if Qeq_bool q 0 then None else Some (VFloat (Qred (/ q)))
    | _ => None
    end;
  mat_mul x y :=
    match x, y with
    | VFloat p, VFloat q => Some (VFloat (Qred (p * q)))
    | _, _ => None
    end;
  mat_sub x y :=
    match x, y with
    | VFloat p, VFloat q => Some (VFloat (Qred (p - q)))
    | _, _ => None
    end;
|}.

Definition plain (b : base) : pyclass := {| cls_base := b; cls_iter := false |}.

Definition new_instance (b : base) (d : list (string * value)) (σ : state)
    : outcome value * state :=
  let l := fresh (dom (st_heap σ)) in
  (Returned (VRef l),
   set_heap (<[l := OInstance (plain b) (list_to_map d)]> (st_heap σ)) σ).

Definition answer (o : option value) (σ : state) : outcome value * state :=
  match o with
  | Some v => (Returned v, σ)
  | None => (Raised (ExternalError "LinAlgError"), σ)
  end.

Definition unsupported (σ : state) : outcome value * state :=
  (Raised (ExternalError "NotImplementedError"), σ).

Definition scalar_env : env := λ d args kw σ,
  let h := st_heap σ in
  match d, args with
  | D_StateSpace, [a; b; c; d] =>
      new_instance BStateSpace [("A", a); ("B", b); ("C", c); ("D", d)] σ
  | D_TransferFunction, [num; den] =>
      new_instance BTransferFunction [("num", num); ("den", den)] σ
  | D_convertToStateSpace, [sys] =>
      (* num / (s + den)  as  x' = -den x + u,  y = num x *)
      match py_getattr h sys "num", py_getattr h sys "den" with
      | Some num, Some (VFloat den) =>
          new_instance BStateSpace
            [("A", VFloat (Qred (- den))); ("B", VFloat 1); ("C", num);
             ("D", VFloat 0)] σ
      | _, _ => unsupported σ
      end
  | D_zpk2ss, [_; p; k] =>
      (* k / (s - p) *)
      (Returned (VTuple [p; VFloat 1; k; VFloat 0]), σ)
  | D_issys, [v] =>
      (Returned (VBool (py_isinstance h v BStateSpace
                        || py_isinstance h v BTransferFunction)), σ)
  | D_matrix_I, [a] => answer (mat_inv scalars a) σ
  | D_mul, [x; y] => answer (mat_mul scalars x y) σ
  | D_sub, [x; y] => answer (mat_sub scalars x y) σ
  | D_freqplot_margin, [_] =>
      (Returned (VTuple [VStr "gm"; VStr "pm"; VStr "sm";
                         VStr "wg"; VStr "wp"; VStr "ws"]), σ)
  | D_freqplot_bode, _ =>
      (Returned (VTuple [VStr "mag"; VStr "phase"; VStr "omega"]), σ)
  | D_StepResponse, [_; T; _; _; _]
  | D_ImpulseResponse, [_; T; _; _; _]
  | D_InitialResponse, [_; T; _; _; _] =>
      (Returned (VTuple [T; VStr "yout"]), σ)
  | D_ForcedResponse, [_; T; _; _] =>
      (Returned (VTuple [T; VStr "yout"; VStr "xout"]), σ)
  | _, _ => unsupported σ
  end.

Definition empty_state : state := State ∅ ∅ [].

(** A store with one state-space system, [x' = -2 x + u], [y = 3 x], whose
    four matrices are objects of their own, one transfer function and one
    object that is no system but carries an attribute [__iter__]. *)
Definition matrix_object (q : Q) : obj :=
  OInstance {| cls_base := BNdarray; cls_iter := true |}
    {[ "data" := VFloat q ]}.

Definition sample_heap : heap :=
  list_to_map
    [(1%positive, OInstance (plain BStateSpace)
         (list_to_map [("A", VRef 2%positive); ("B", VRef 3%positive);
                       ("C", VRef 4%positive); ("D", VRef 5%positive)]));
     (2%positive, matrix_object (-2));
     (3%positive, matrix_object 1);
     (4%positive, matrix_object 3);
     (5%positive, matrix_object 0);
     (6%positive, OInstance (plain BTransferFunction)
         (list_to_map [("num", VFloat 3); ("den", VFloat 2)]));
     (7%positive, OInstance (plain BObject) {[ "__iter__" := VNone ]})].

Definition sample_state : state := State sample_heap ∅ [].

End Sample.
Import Sample.

(** ** Vocabulary of further statements *)

(** The conversion routine behind a conversion wrapper, and the class whose
    instances the wrapper hands to it. *)
Definition crosses (w : conversion) : base * delegate :=
  match w with
  | C_ss | C_tf2ss => (BTransferFunction, D_convertToStateSpace)
  | C_tf | C_ss2tf => (BStateSpace, D_convertToTransferFunction)
  end.

(** The constructor [d], called with [args] in [σ], returns an instance of
    class [b] if it returns at all. *)
Definition constructs (E : env) (d : delegate) (args : list value)
    (σ : state) (b : base) : Prop :=
  match E d args ∅ σ with
  | (Returned v, σ') => py_isinstance (st_heap σ') v b = true
  | (Raised _, _) => True
  end.

(** [ctrlutil.issys] as a test that looks at its argument and does nothing
    else. *)
Definition issys_is (E : env) (sys : heap → value → bool) : Prop :=
  ∀ a σ, E D_issys [a] ∅ σ = (Returned (VBool (sys (st_heap σ) a)), σ).

(** An argument list in the MATLAB calling format of [bode]: systems, each
    with or without a plot style after it, and perhaps a list of
    frequencies at the end. *)
Definition entry_args (e : value * option string) : list value :=
  e.1 :: from_option (λ style, [VStr style]) [] e.2.

Definition entries_args (entries : list (value * option string)) : list value :=
  entries ≫= entry_args.

Definition matlab_args (entries : list (value * option string))
    (omega : option value) : list value :=
  entries_args entries ++ from_option (λ w, [w]) [] omega.

Definition entry_styles (entries : list (value * option string)) : list value :=
  omap (λ e, VStr <$> e.2) entries.

(** What the scan takes for a system: [issys] says so, and it is no string. *)
Definition scanned_as_system (sys : heap → value → bool) (h : heap)
    (v : value) : Prop :=
  sys h v = true ∧ py_is_str v = false.

(** The test [bode] starts with. *)
Definition has_true_iter (h : heap) (v : value) : bool :=
  py_truthy h (py_getattr_default h v "__iter__" (VBool false)).

(** A list of gains given to [rlocus]: anything but [None] that compares
    with [None] by itself, that is, a built-in value or a list. *)
Definition gains_given (h : heap) (klist : value) : bool :=
  match klist with
  | VNone => false
  | VRef l => match h !! l with Some (OInstance _ _) => false | _ => true end
  | _ => true
  end.

(** [RootLocus(sys, klist, **keywords)], and its result with [klist]. *)
Definition root_locus_with (E : env) (sys klist : value) (keywords : kwargs)
    (σ : state) : outcome value * state :=
  match E D_RootLocus [sys; klist] keywords σ with
  | (Returned rlist, σ') => (Returned (VTuple [rlist; klist]), σ')
  | (Raised e, σ') => (Raised e, σ')
  end.

(** The small environment with stand-ins for [logspace] and [RootLocus]:
    the end points for the gains, and one root for all of them. *)
Definition gains_env : env := λ d args kw σ,
  match d, args with
  | D_logspace, [lo; hi] => (Returned (VTuple [lo; hi]), σ)
  | D_RootLocus, [_; klist] => (Returned (VTuple [VStr "roots"]), σ)
  | _, _ => scalar_env d args kw σ
  end.

(** [print_free p]: the program [p] has no [print] statement. *)
Fixpoint print_free {A} (p : prog A) : Prop :=
  match p with
  | Ret _ | Raise _ | Fault _ => True
  | Call _ _ _ k => ∀ v, print_free (k v)
  | GetHeap k => ∀ h, print_free (k h)
  | PutHeap _ k => print_free k
  | GetGlobal _ k => ∀ v, print_free (k v)
  | SetGlobal _ _ k => print_free k
  | Print _ _ => False
  end.

(** An environment whose routines print nothing. *)
Definition env_quiet (E : env) : Prop :=
  ∀ d args kw σ, st_stdout (E d args kw σ).2 = st_stdout σ.

(** * Verification *)

(** ** Running programs *)

Lemma run_call E d args kw σ : run E (call d args kw) σ = E d args kw σ.
Proof. unfold call; simpl. by destruct (E d args kw σ) as [[v|e] σ']. Qed.

Lemma run_bind {A B} E (p : prog A) (f : A → prog B) σ :
  run E (p ≫= f) σ =
  match run E p σ with
  | (Returned a, σ') => run E (f a) σ'
  | (Raised e, σ') => (Raised e, σ')
  end.
Proof.
  revert σ. induction p as [| | |d args kw k IH|k IH|h k IH|x k IH|x v k IH|s k IH];
    intros σ; simpl; try done.
  destruct (E d args kw σ) as [[v|e] σ']; [apply IH|done].
Qed.

Lemma raises_bind {A B} (p : prog A) (f : A → prog B) e :
  raises (p ≫= f) e → raises p e ∨ ∃ a, raises (f a) e.
Proof.
  induction p as [| | |d args kw k IH|k IH|h k IH|x k IH|x v k IH|s k IH];
    simpl; intros H; eauto.
  - destruct H as [v H]. destruct (IH v H); eauto.
  - destruct H as [h H]. destruct (IH h H); eauto.
  - destruct H as [v H]. destruct (IH v H); eauto.
Qed.

(** ** The wrappers at work *)

Example dcgain_of_matrices :
  (run scalar_env (dcgain [VFloat (-2); VFloat 1; VFloat 3; VFloat 0])
     empty_state).1
  = Returned (VFloat (3 # 2)).
Proof. reflexivity. Qed.

Example dcgain_of_transfer_function :
  (run scalar_env (dcgain [VRef 6%positive]) sample_state).1
  = Returned (VFloat (3 # 2)).
Proof. reflexivity. Qed.

Example dcgain_singular :
  (run scalar_env (dcgain [VFloat 0; VFloat 1; VFloat 3; VFloat 0])
     empty_state).1
  = Raised (ExternalError "LinAlgError").
Proof. reflexivity. Qed.

Example margin_two_arguments :
  run scalar_env (margin [VInt 1; VInt 2]) empty_state
  = (Raised ValueError, empty_state).
Proof. reflexivity. Qed.

Example bode_with_plotstyle :
  let r := run scalar_env (bode [VRef 1%positive; VStr "r"] ∅) sample_state in
  r.1 = Returned (VTuple [VStr "mag"; VStr "phase"; VStr "omega"])
  ∧ st_stdout r.2 = [bode_warning].
Proof. split; reflexivity. Qed.

Example bode_plotstyles_do_not_match :
  run scalar_env
    (bode [VRef 1%positive; VStr "r"; VRef 6%positive] ∅) sample_state
  = (Raised ControlArgument, sample_state).
Proof. reflexivity. Qed.

Example bode_argument_after_frequencies :
  run scalar_env
    (bode [VRef 1%positive; VRef 2%positive; VRef 6%positive] ∅) sample_state
  = (Raised ControlArgument, sample_state).
Proof. reflexivity. Qed.

Example bode_without_arguments :
  run scalar_env (bode [] ∅) sample_state = (Raised IndexError, sample_state).
Proof. reflexivity. Qed.

Example look_at_the_sample_system :
  look 2 sample_heap (VRef 1%positive)
  = SInstance (plain BStateSpace)
      (list_to_map
         [("A", SInstance {| cls_base := BNdarray; cls_iter := true |}
                  {[ "data" := SAtom (VFloat (-2)) ]});
          ("B", SInstance {| cls_base := BNdarray; cls_iter := true |}
                  {[ "data" := SAtom (VFloat 1) ]});
          ("C", SInstance {| cls_base := BNdarray; cls_iter := true |}
                  {[ "data" := SAtom (VFloat 3) ]});
          ("D", SInstance {| cls_base := BNdarray; cls_iter := true |}
                  {[ "data" := SAtom (VFloat 0) ]})]).
Proof. by vm_compute. Qed.

(** ** Arity dispatch *)

(** C1: a call of [ss], [ss2tf], [tf], [tf2ss], [margin] or [dcgain] whose
    number of positional arguments is not one the wrapper accepts is the
    statement [raise ValueError] and nothing else: no routine outside the
    file is called, and whatever the environment the run ends in
    [ValueError] with the state as it was. *)
Theorem arity_mismatch_raises_ValueError (w : arity_wrapper) (args : list value) :
  ¬ In (length args) (accepted w) →
  arity_call w args = Raise ValueError
  ∧ ∀ E σ, run E (arity_call w args) σ = (Raised ValueError, σ).
Proof.
  intros Hn.
  assert (arity_call w args = Raise ValueError) as ->; [|done].
  destruct w; destruct args as [|a [|b [|c [|d [|e rest]]]]];
    first [ done | exfalso; apply Hn; simpl; lia ].
Qed.

Lemma arity_mismatch_raises_ValueError_witness :
  ¬ In (length [VInt 1; VInt 2]) (accepted W_ss)
  ∧ arity_call W_ss [VInt 1; VInt 2] = Raise ValueError.
Proof.
  assert (¬ In (length [VInt 1; VInt 2]) (accepted W_ss)) as Hn.
  { simpl. lia. }
  split; [exact Hn|].
  exact (proj1 (arity_mismatch_raises_ValueError W_ss [VInt 1; VInt 2] Hn)).
Defined.

(** ** Type checks of the one-argument forms *)

(** C3: called with a single argument that is an instance of none of the
    classes the wrapper converts from (for [ss] and [tf]: [StateSpace] and
    [TransferFunction]; for [ss2tf]: [StateSpace]; for [tf2ss]:
    [TransferFunction]), a conversion wrapper raises [TypeError] and leaves
    the state as it was. *)
Theorem single_argument_type_check (w : conversion) (sys : value) E σ :
  (∀ b, In b (converts_from w) → py_isinstance (st_heap σ) sys b = false) →
  run E (convert w [sys]) σ = (Raised TypeError, σ).
Proof.
  intros Hb. destruct w; simpl in *;
    rewrite ?(Hb BStateSpace), ?(Hb BTransferFunction) by tauto; done.
Qed.

Lemma single_argument_type_check_witness :
  run scalar_env (convert C_ss2tf [VRef 6%positive]) sample_state
  = (Raised TypeError, sample_state).
Proof.
  apply (single_argument_type_check C_ss2tf (VRef 6%positive)).
  intros b [<-|[]]. reflexivity.
Defined.

(** ** Delegation *)

(** C4: with four arguments [ss] is [StateSpace] and with two arguments
    [tf] is [TransferFunction]: same arguments, same result or exception,
    same effect.  [ss2tf] hands the new [StateSpace] to
    [_convertToTransferFunction], [tf2ss] the new [TransferFunction] to
    [_convertToStateSpace], and both return what the conversion returns. *)
Theorem construction_is_delegation E σ (a b c d num den : value) :
  run E (ss [a; b; c; d]) σ = E D_StateSpace [a; b; c; d] ∅ σ
  ∧ run E (tf [num; den]) σ = E D_TransferFunction [num; den] ∅ σ
  ∧ run E (ss2tf [a; b; c; d]) σ
    = feed E D_convertToTransferFunction (E D_StateSpace [a; b; c; d] ∅ σ)
  ∧ run E (tf2ss [num; den]) σ
    = feed E D_convertToStateSpace (E D_TransferFunction [num; den] ∅ σ).
Proof.
  repeat split; try apply run_call.
  - simpl. destruct (E D_StateSpace _ _ _) as [[v|e] σ']; [apply run_call|done].
  - simpl. destruct (E D_TransferFunction _ _ _) as [[v|e] σ'];
      [apply run_call|done].
Qed.

(** ** The simulation wrappers *)

Lemma as_tuple_tuple n items :
  length items = n → as_tuple n (VTuple items) = Ret (VTuple items).
Proof. intros Hn. unfold as_tuple, unpack, exactly; simpl. by rewrite decide_True. Qed.

(** C5, for calls that do not pass [transpose] themselves: a call of
    [step], [impulse], [initial] or [lsim], with a value for each positional
    parameter, whose extra keyword arguments do not name [transpose] is a call
    of the [timeresp] routine with the positional arguments of the wrapper
    and the keywords extended by [transpose = True]; when the routine
    answers a tuple of the expected length (two for [step], [impulse] and
    [initial], three for [lsim]) the wrapper returns a tuple of the same
    components and adds no effect of its own. *)
Theorem simulation_delegates (w : simulation) (params : list value)
    (keywords : kwargs) :
  length params = sim_arity w →
  keywords !! "transpose" = None →
  simulate w params keywords
  = Call (sim_routine w) (sim_forwarded w params)
         (<["transpose" := VBool true]> keywords) (as_tuple (sim_results w))
  ∧ ∀ E σ items σ',
      E (sim_routine w) (sim_forwarded w params)
        (<["transpose" := VBool true]> keywords) σ
      = (Returned (VTuple items), σ') →
      length items = sim_results w →
      run E (simulate w params keywords) σ = (Returned (VTuple items), σ').
Proof.
  intros Hlen Hkw.
  assert (simulate w params keywords
          = Call (sim_routine w) (sim_forwarded w params)
              (<["transpose" := VBool true]> keywords)
              (as_tuple (sim_results w))) as Heq.
  { destruct w; destruct params as [|a [|b [|c [|d [|e [|f rest]]]]]];
      try discriminate Hlen; simpl;
      unfold step, impulse, initial, lsim, with_keyword; rewrite Hkw; done. }
  split; [done|].
  intros E σ items σ' HE Hn. rewrite Heq. simpl. rewrite HE.
  by rewrite as_tuple_tuple.
Qed.

Lemma simulation_delegates_witness :
  run scalar_env
    (simulate S_lsim [VRef 1%positive; VFloat 0; VNone; VFloat 0] ∅)
    sample_state
  = (Returned (VTuple [VNone; VStr "yout"; VStr "xout"]), sample_state).
Proof.
  assert (length [VRef 1%positive; VFloat 0; VNone; VFloat 0]
          = sim_arity S_lsim) as Hlen by reflexivity.
  assert ((∅ : kwargs) !! "transpose" = None) as Hkw by reflexivity.
  apply (proj2 (simulation_delegates S_lsim
                  [VRef 1%positive; VFloat 0; VNone; VFloat 0] ∅ Hlen Hkw));
    reflexivity.
Defined.

(** C5 does not hold for every call: a [transpose] among the extra keyword
    arguments meets the [transpose = True] the wrapper writes, the call is a
    [TypeError] and [StepResponse] is never entered. *)
Lemma step_transpose_keyword_clash :
  simulate S_step [VRef 1%positive; VNone; VFloat 0; VInt 0; VInt 0]
    {[ "transpose" := VBool false ]}
  = Fault TypeError
  ∧ run scalar_env
      (step (VRef 1%positive) VNone (VFloat 0) (VInt 0) (VInt 0)
         {[ "transpose" := VBool false ]})
      sample_state
    = (Raised TypeError, sample_state).
Proof. split; reflexivity. Qed.

(** ** Margins *)

(** C6: called with one or three arguments, [margin] asks [freqplot.margin]
    once and, when the answer is a tuple of at least five elements, returns
    the tuple of its elements 0, 1, 3 and 4; element 2 is dropped. *)
Theorem margin_selects (args : list value) E σ σ'
    (v0 v1 v2 v3 v4 : value) (more : list value) :
  length args = 1 ∨ length args = 3 →
  E D_freqplot_margin [margin_input args] ∅ σ
  = (Returned (VTuple (v0 :: v1 :: v2 :: v3 :: v4 :: more)), σ') →
  run E (margin args) σ = (Returned (VTuple [v0; v1; v3; v4]), σ').
Proof.
  intros Hlen HE.
  destruct args as [|a [|b [|c [|d rest]]]]; simpl in Hlen; try lia;
    simpl in *; by rewrite HE.
Qed.

Lemma margin_selects_witness :
  run scalar_env (margin [VStr "mag"; VStr "phase"; VStr "w"]) sample_state
  = (Returned (VTuple [VStr "gm"; VStr "pm"; VStr "wg"; VStr "wp"]),
     sample_state).
Proof.
  apply (margin_selects [VStr "mag"; VStr "phase"; VStr "w"] scalar_env
           sample_state sample_state
           (VStr "gm") (VStr "pm") (VStr "sm") (VStr "wg") (VStr "wp")
           [VStr "ws"]).
  - right. reflexivity.
  - reflexivity.
Defined.

(** ** bode *)

(** C10, for a first argument whose [__iter__] is true: when
    [getattr(args[0], '__iter__', False)] is true, [bode] is [freqplot.bode]
    applied to the same positional and keyword arguments: nothing is
    scanned, nothing is checked. *)
Theorem bode_forwards_iterables (a0 : value) (rest : list value)
    (keywords : kwargs) E σ :
  py_truthy (st_heap σ)
    (py_getattr_default (st_heap σ) a0 "__iter__" (VBool false)) = true →
  run E (bode (a0 :: rest) keywords) σ
  = E D_freqplot_bode (a0 :: rest) keywords σ.
Proof. intros Hit. simpl. rewrite Hit. apply run_call. Qed.

Lemma bode_forwards_iterables_witness :
  run scalar_env (bode [VTuple [VRef 1%positive; VRef 6%positive]] ∅)
    sample_state
  = scalar_env D_freqplot_bode [VTuple [VRef 1%positive; VRef 6%positive]] ∅
      sample_state.
Proof.
  apply (bode_forwards_iterables (VTuple [VRef 1%positive; VRef 6%positive])).
  reflexivity.
Defined.

(** C10 does not hold for every object that has an [__iter__] attribute:
    object 7 of the sample store has one, whose value is [None]; [bode] does
    not forward it but goes on in the MATLAB calling format, which starts by
    asking [ctrlutil.issys], and in the sample environment rejects the
    object with [ControlArgument]. *)
Lemma bode_scans_false_iter :
  py_getattr sample_heap (VRef 7%positive) "__iter__" = Some VNone
  ∧ (∀ E, run E (bode [VRef 7%positive] ∅) sample_state
          = run E (bode_matlab [VRef 7%positive] ∅) sample_state)
  ∧ bode_matlab [VRef 7%positive] ∅ ≠ call D_freqplot_bode [VRef 7%positive] ∅
  ∧ run scalar_env (bode [VRef 7%positive] ∅) sample_state
    = (Raised ControlArgument, sample_state)
  ∧ run scalar_env (bode [VRef 7%positive] ∅) sample_state
    ≠ scalar_env D_freqplot_bode [VRef 7%positive] ∅ sample_state.
Proof.
  split_and!; try reflexivity.
  - discriminate.
  - vm_compute. discriminate.
Qed.

(** ** The exceptions the file raises *)

(** Case analysis of a run that ends in a [raise] statement. *)
Ltac raises_step H :=
  match type of H with
  | False => destruct H
  | ∃ _, _ => let x := fresh "x" in destruct H as [x H]
  | raises (_ ≫= _) _ => apply raises_bind in H as [H|[? H]]
  | raises (prog_mbind _ _ ?f ?p) _ => apply (raises_bind p f) in H as [H|[? H]]
  | raises (if ?b then _ else _) _ => destruct b
  | raises (match ?x with _ => _ end) _ => destruct x
  | raises (let '(_, _) := ?x in _) _ => destruct x
  end.

Ltac raises_cases H := repeat (simpl in H; raises_step H); simpl in H.

Lemma raises_deepcopy v e : ¬ raises (deepcopy v) e.
Proof. intros [h H]. destruct (py_deepcopy h v). exact H. Qed.

Lemma raises_attr v name e : ¬ raises (attr v name) e.
Proof. unfold attr. intros H. raises_cases H. Qed.

Lemma raises_exactly n items e : ¬ raises (exactly n items) e.
Proof. unfold exactly. intros H. raises_cases H. Qed.

Lemma raises_index v i e : ¬ raises (index v i) e.
Proof. unfold index. intros H. raises_cases H. Qed.

Lemma raises_unpack n v e : ¬ raises (unpack n v) e.
Proof.
  unfold unpack. intros H.
  repeat (simpl in H;
          first [ by apply raises_exactly in H | raises_step H ]).
Qed.

Lemma raises_as_tuple n v e : ¬ raises (as_tuple n v) e.
Proof.
  unfold as_tuple. intros [H|[a H]]%raises_bind; [|done].
  by apply raises_unpack in H.
Qed.

Lemma raises_with_keyword name v kw e : ¬ raises (with_keyword name v kw) e.
Proof. unfold with_keyword. intros H. raises_cases H. Qed.

Lemma raises_gain_of sys e : ¬ raises (gain_of sys) e.
Proof.
  unfold gain_of, attr. intros H.
  repeat (simpl in H; raises_step H).
Qed.

Lemma raises_tf2ss args e : raises (tf2ss args) e → e = ValueError ∨ e = TypeError.
Proof.
  intros H. destruct args as [|a [|b [|c rest]]]; raises_cases H; auto.
Qed.

Lemma raises_ss2tf args e : raises (ss2tf args) e → e = ValueError ∨ e = TypeError.
Proof.
  intros H. destruct args as [|a [|b [|c [|d [|x rest]]]]]; raises_cases H; auto.
Qed.

Lemma raises_ss args e : raises (ss args) e → e = ValueError ∨ e = TypeError.
Proof.
  intros H. destruct args as [|a [|b [|c [|d [|x rest]]]]]; simpl in H; auto;
    [|by destruct H].
  destruct H as [h H]. destruct (py_isinstance h a BStateSpace).
  { by apply raises_deepcopy in H. }
  destruct (py_isinstance h a BTransferFunction); [|by right].
  exact (raises_tf2ss [a] e H).
Qed.

Lemma raises_tf args e : raises (tf args) e → e = ValueError ∨ e = TypeError.
Proof.
  intros H. destruct args as [|a [|b [|c rest]]]; simpl in H; auto;
    [|by destruct H].
  destruct H as [h H]. destruct (py_isinstance h a BStateSpace).
  { exact (raises_ss2tf [a] e H). }
  destruct (py_isinstance h a BTransferFunction); [|by right].
  by apply raises_deepcopy in H.
Qed.

Lemma raises_margin args e : raises (margin args) e → e = ValueError.
Proof.
  unfold margin. intros [H|[m H]]%raises_bind.
  - destruct args as [|a [|b [|c [|d rest]]]]; raises_cases H; auto.
  - repeat (apply raises_bind in H as [H|[? H]];
            [by apply raises_index in H|]).
    destruct H.
Qed.

Lemma raises_dcgain_system args e :
  raises (dcgain_system args) e → e = ValueError ∨ e = TypeError.
Proof.
  intros H. destruct args as [|a [|b [|c [|d [|x rest]]]]]; auto.
  - exact (raises_ss [a] e H).
  - exact (raises_tf2ss [a; b] e H).
  - simpl in H. destruct H as [r H]. apply raises_bind in H as [H|[abcd H]].
    + by apply raises_unpack in H.
    + by apply raises_ss in H.
  - exact (raises_ss [a; b; c; d] e H).
Qed.

Lemma raises_dcgain args e : raises (dcgain args) e → e = ValueError ∨ e = TypeError.
Proof.
  unfold dcgain. intros [H|[sys H]]%raises_bind.
  - by apply raises_dcgain_system in H.
  - by apply raises_gain_of in H.
Qed.

Lemma raises_bode_scan rest syslist plotstyle e :
  raises (bode_scan rest syslist plotstyle) e → e = ControlArgument.
Proof.
  remember (length rest) as n eqn:Hn.
  revert rest syslist plotstyle Hn.
  induction n as [n IH] using lt_wf_ind. intros rest syslist plotstyle Hn H.
  destruct rest as [|a rest]; [done|].
  simpl in H. destruct H as [r [h H]].
  destruct (py_truthy h r).
  - destruct rest as [|b rest].
    + by apply (IH 0) in H; [|simpl in Hn; lia|].
    + destruct (py_is_str b).
      * by apply (IH (length rest)) in H; [|simpl in Hn; lia|].
      * by apply (IH (length (b :: rest))) in H; [|simpl in Hn |- *; lia|].
  - destruct H as [h' H]. by destruct (py_is_list_or_ndarray h' a).
Qed.

Lemma raises_bode args keywords e : raises (bode args keywords) e → e = ControlArgument.
Proof.
  intros H. destruct args as [|a0 rest]; [done|].
  destruct H as [h H].
  destruct (py_truthy h _); [by destruct H|].
  unfold bode_matlab in H.
  apply raises_bind in H as [H|[[[[syslist plotstyle] omega] left] H]].
  - by apply raises_bode_scan in H.
  - destruct (negb (bool_decide (left = []))); [done|].
    destruct (negb (length plotstyle =? 0)%nat); simpl in H.
    + destruct (negb (length syslist =? length plotstyle)%nat);
        simpl in H; [done|].
      by destruct H as [? [? []]].
    + by destruct H as [? [? []]].
Qed.

Lemma raises_eq_None v e : ¬ raises (eq_None v) e.
Proof. unfold eq_None. intros H. raises_cases H. Qed.

Lemma raises_simulation r args kw n e :
  ¬ raises (kw' ← with_keyword "transpose" (VBool true) kw;
            r ← call r args kw'; as_tuple n r) e.
Proof.
  intros [H|[kw' H]]%raises_bind; [by apply raises_with_keyword in H|].
  simpl in H. destruct H as [v H].
  apply (raises_as_tuple n v e), H.
Qed.

(** C2, with the exception of [bode] added: the [raise] statements a call
    of a function of the file can end in raise [ValueError] or [TypeError],
    or, in [bode] only, [ControlArgument]. *)
Theorem own_exceptions (c : application) (e : exn) :
  raises (program c) e →
  e = ValueError ∨ e = TypeError ∨ (e = ControlArgument ∧ is_bode c = true).
Proof.
  intros H. destruct c; simpl in H.
  - apply raises_ss in H. tauto.
  - apply raises_tf in H. tauto.
  - apply raises_ss2tf in H. tauto.
  - apply raises_tf2ss in H. tauto.
  - by destruct H.
  - by destruct H.
  - by destruct H.
  - by destruct H.
  - by destruct H.
  - by destruct H.
  - apply raises_bode in H. tauto.
  - by destruct H.
  - unfold rlocus in H. apply raises_bind in H as [H|[u H]].
    + by apply raises_eq_None in H.
    + destruct u; raises_cases H.
  - apply raises_margin in H. tauto.
  - apply raises_dcgain in H. tauto.
  - by apply raises_simulation in H.
  - by apply raises_simulation in H.
  - by apply raises_simulation in H.
  - by apply raises_simulation in H.
Qed.

Lemma own_exceptions_witness :
  raises (program (A_tf2ss [VInt 1])) TypeError
  ∧ (TypeError = ValueError ∨ TypeError = TypeError
     ∨ (TypeError = ControlArgument ∧ is_bode (A_tf2ss [VInt 1]) = true)).
Proof.
  assert (raises (program (A_tf2ss [VInt 1])) TypeError) as H.
  { exists ∅. reflexivity. }
  split; [exact H|]. exact (own_exceptions (A_tf2ss [VInt 1]) TypeError H).
Defined.

(** C2 does not hold for [bode]: [bode(1)] is rejected by [bode]'s own
    check of its arguments, and the exception is [ControlArgument]. *)
Lemma bode_rejects_with_ControlArgument :
  raises (program (A_bode [VInt 1] ∅)) ControlArgument
  ∧ run scalar_env (bode [VInt 1] ∅) empty_state
    = (Raised ControlArgument, empty_state)
  ∧ ControlArgument ≠ ValueError
  ∧ ControlArgument ≠ TypeError.
Proof.
  repeat split; try discriminate.
  exists ∅, (VBool false), ∅, ∅. reflexivity.
Qed.

(** ** The steady-state gain *)




(** ** Deep copies *)

Lemma value_ind' (P : value → Prop) :
  P VNone → (∀ b, P (VBool b)) → (∀ n, P (VInt n)) → (∀ q, P (VFloat q)) →
  (∀ s, P (VStr s)) → (∀ vs, Forall P vs → P (VTuple vs)) →
  (∀ name, P (VMethod name)) → (∀ l, P (VRef l)) →
  ∀ v, P v.
Proof.
  intros HNone HBool HInt HFloat HStr HTuple HMethod HRef.
  fix IH 1. intros [|b|n|q|s|vs|name|l].
  - exact HNone.
  - apply HBool.
  - apply HInt.
  - apply HFloat.
  - apply HStr.
  - apply HTuple. induction vs as [|v vs IHvs]; constructor.
    + apply IH.
    + exact IHvs.
  - apply HMethod.
  - apply HRef.
Qed.

Lemma elem_of_refs_list x (vs : list value) :
  x ∈ ⋃ (refs <$> vs) ↔ ∃ v, v ∈ vs ∧ x ∈ refs v.
Proof.
  rewrite elem_of_union_list. split.
  - intros (X & (v & -> & Hv)%list_elem_of_fmap & Hx). eauto.
  - intros (v & Hv & Hx). exists (refs v). split; [|done].
    apply list_elem_of_fmap. eauto.
Qed.

Lemma elem_of_obj_refs x o :
  x ∈ obj_refs o ↔ ∃ v, v ∈ obj_values o ∧ x ∈ refs v.
Proof. apply elem_of_refs_list. Qed.




(** *** The visited set *)

Section visited.

Context (h : heap).

Lemma successors_incl X : X ⊆ successors h X.
Proof. unfold successors. set_solver. Qed.

Lemma elem_of_successors X x :
  x ∈ successors h X ↔ x ∈ X ∨ ∃ l o, l ∈ X ∧ h !! l = Some o ∧ x ∈ obj_refs o.
Proof.
  unfold successors. rewrite elem_of_union, elem_of_set_bind. split.
  - intros [?|(l & Hx & Hl)]; [by left|right].
    destruct (h !! l) as [o|] eqn:Ho; simpl in Hx; [eauto|set_solver].
  - intros [?|(l & o & Hl & Ho & Hx)]; [by left|right].
    exists l. by rewrite Ho.
Qed.

Lemma closure_incl n X : X ⊆ closure n h X.
Proof.
  revert X. induction n as [|n IH]; intros X; simpl; [done|].
  etrans; [apply successors_incl|apply IH].
Qed.

Lemma closure_fixed n X : successors h X = X → closure n h X = X.
Proof. intros HX. induction n as [|n IH]; simpl; [done|]. by rewrite HX. Qed.

Lemma reachable_roots v : refs v ⊆ reachable h v.
Proof. apply closure_incl. Qed.

Hypothesis closed : heap_closed h.

Lemma successors_dom X : X ⊆ dom h → successors h X ⊆ dom h.
Proof.
  intros HX x [?|(l & o & Hl & Ho & Hx)]%elem_of_successors; [auto|].
  by apply (closed l o Ho).
Qed.

Lemma closure_dom n X : X ⊆ dom h → closure n h X ⊆ dom h.
Proof.
  revert X. induction n as [|n IH]; intros X HX; simpl; [done|].
  by apply IH, successors_dom.
Qed.

(** Enough rounds reach a set that no further round enlarges: every round
    that changes the set adds an object, and there are only so many. *)
Lemma closure_saturates n X :
  X ⊆ dom h → (size (dom h) ≤ n + size X)%nat →
  successors h (closure n h X) = closure n h X.
Proof.
  revert X. induction n as [|n IH]; intros X HX Hsize; simpl.
  - assert (X = dom h) as ->.
    { apply set_subseteq_size_eq; [done|lia]. }
    apply set_eq. intros x. split; [|apply successors_incl].
    by apply successors_dom.
  - destruct (decide (successors h X = X)) as [Heq|Hne].
    + rewrite Heq, closure_fixed; done.
    + apply IH; [by apply successors_dom|].
      assert (X ⊂ successors h X) as Hlt%subset_size; [|lia].
      split; [apply successors_incl|].
      intros Hsub. apply Hne, set_eq. intros x. split; [apply Hsub|].
      apply successors_incl.
Qed.

Lemma reachable_dom v : refs v ⊆ dom h → reachable h v ⊆ dom h.
Proof. intros. by apply closure_dom. Qed.

Lemma reachable_closed v l o :
  refs v ⊆ dom h →
  l ∈ reachable h v → h !! l = Some o → obj_refs o ⊆ reachable h v.
Proof.
  intros Hv Hl Ho x Hx. unfold reachable in *.
  rewrite <-closure_saturates by (done || lia).
  apply elem_of_successors. right. eauto.
Qed.

End visited.

(** *** The plan: old objects paired with new places *)

Section plan.

Context (h : heap) (v : value).

Lemma copy_plan_olds : (copy_plan h v).*1 = elements (reachable h v).
Proof. unfold copy_plan. apply fst_zip. by rewrite length_fresh_list. Qed.

Lemma copy_plan_news :
  (copy_plan h v).*2
  = fresh_list (length (elements (reachable h v))) (dom h).
Proof. unfold copy_plan. apply snd_zip. by rewrite length_fresh_list. Qed.

Lemma copy_plan_NoDup_news : NoDup (copy_plan h v).*2.
Proof. rewrite copy_plan_news. apply NoDup_fresh_list. Qed.

Lemma copy_map_lookup l l' :
  copy_map h v !! l = Some l' ↔ (l, l') ∈ copy_plan h v.
Proof.
  unfold copy_map. symmetry. apply elem_of_list_to_map.
  rewrite copy_plan_olds. apply NoDup_elements.
Qed.

Lemma copy_plan_old l l' : (l, l') ∈ copy_plan h v → l ∈ reachable h v.
Proof. intros Hin%elem_of_zip_l. by apply elem_of_elements. Qed.

Lemma copy_plan_new l l' : (l, l') ∈ copy_plan h v → l' ∉ dom h.
Proof. intros Hin%elem_of_zip_r. by apply fresh_list_is_fresh in Hin. Qed.

Lemma copy_map_dom : dom (copy_map h v) = reachable h v.
Proof.
  unfold copy_map. rewrite dom_list_to_map_L, copy_plan_olds.
  apply set_eq. intros x. by rewrite elem_of_list_to_set, elem_of_elements.
Qed.


End plan.

Section copies.

Context (h : heap) (ρ : gmap loc loc) (plan : list (loc * loc)).

Lemma copies_keys : (copies h ρ plan).*1 `sublist_of` plan.*2.
Proof.
  induction plan as [|[l l'] plan' IH]; simpl; [done|].
  destruct (h !! l); simpl; by constructor.
Qed.

Lemma copies_lookup l l' o :
  NoDup plan.*2 → (l, l') ∈ plan → h !! l = Some o →
  (list_to_map (copies h ρ plan) : heap) !! l' = Some (rename_obj ρ o).
Proof.
  intros Hnd Hin Ho. apply elem_of_list_to_map_1.
  - eapply sublist_NoDup; [exact Hnd|]. apply copies_keys.
  - apply list_elem_of_omap. exists (l, l'). split; [done|]. by rewrite Ho.
Qed.


Lemma copies_lookup_None x :
  x ∉ plan.*2 → (list_to_map (copies h ρ plan) : heap) !! x = None.
Proof.
  intros Hx. apply not_elem_of_list_to_map_1. intros Hin. apply Hx.
  eapply elem_of_sublist; [exact Hin|apply copies_keys].
Qed.

End copies.

(** *** What [deepcopy] guarantees *)

(** The objects that exist are left as they are. *)
Lemma deepcopy_frame h v l :
  l ∈ dom h → (py_deepcopy h v).2 !! l = h !! l.
Proof.
  intros Hl. simpl. apply lookup_union_r, copies_lookup_None.
  intros ([l0 l'] & -> & Hin)%list_elem_of_fmap.
  by apply copy_plan_new in Hin.
Qed.


(** The copy of a visited object sits at its new place. *)
Lemma deepcopy_copy h v l l' o :
  copy_map h v !! l = Some l' → h !! l = Some o →
  (py_deepcopy h v).2 !! l' = Some (rename_obj (copy_map h v) o).
Proof.
  intros Hl%copy_map_lookup Ho. simpl. apply lookup_union_Some_l.
  eapply copies_lookup; [apply copy_plan_NoDup_news|done..].
Qed.


(** The copy looks like the original, to every depth. *)
Lemma look_value_rename ρ (deref deref' : loc → shape) v :
  (∀ l, l ∈ refs v → ∃ l', ρ !! l = Some l' ∧ deref' l' = deref l) →
  look_value deref' (rename ρ v) = look_value deref v.
Proof.
  induction v as [| | | | |vs IH| |l] using value_ind'; intros Hρ; simpl;
    try done.
  - f_equal. rewrite <-list_fmap_compose. apply Forall_fmap_ext_1.
    rewrite Forall_forall in IH |- *. intros v Hv. simpl. apply IH; [done|].
    intros l Hl. apply Hρ. simpl. apply elem_of_refs_list. eauto.
  - destruct (Hρ l) as (l' & -> & Hl'); [simpl; set_solver|]. done.
Qed.

Lemma look_at_copy h v n l l' :
  heap_closed h → refs v ⊆ dom h →
  copy_map h v !! l = Some l' →
  look_at n (py_deepcopy h v).2 l' = look_at n h l.
Proof.
  intros Hh Hv. revert l l'. induction n as [|n IH]; intros l l' Hl; [done|].
  assert (l ∈ reachable h v) as Hreach.
  { rewrite <-copy_map_dom. apply elem_of_dom. eauto. }
  assert (l ∈ dom h) as [o Ho]%elem_of_dom by by eapply reachable_dom.
  assert (∀ x, x ∈ obj_values o →
            look_value (look_at n (py_deepcopy h v).2) (rename (copy_map h v) x)
            = look_value (look_at n h) x) as Hvalues.
  { intros x Hx. apply look_value_rename. intros y Hy.
    assert (y ∈ dom (copy_map h v)) as [y' Hy']%elem_of_dom.
    { rewrite copy_map_dom. eapply reachable_closed; [done..|].
      apply elem_of_obj_refs. eauto. }
    exists y'. split; [done|]. by apply IH. }
  cbn [look_at]. rewrite (deepcopy_copy h v l l' o), Ho by done.
  destruct o as [c d|items]; simpl in *; f_equal.
  - rewrite <-map_fmap_compose. apply map_fmap_ext. intros k x Hk. simpl.
    apply Hvalues, list_elem_of_fmap. exists (k, x). split; [done|].
    by apply elem_of_map_to_list.
  - rewrite <-list_fmap_compose. apply list_fmap_ext. intros i x Hx. simpl.
    apply Hvalues. apply list_elem_of_lookup. eauto.
Qed.

Lemma look_deepcopy h v n :
  heap_closed h → refs v ⊆ dom h →
  look n (py_deepcopy h v).2 (py_deepcopy h v).1 = look n h v.
Proof.
  intros Hh Hv. unfold look. simpl. apply look_value_rename. intros l Hl.
  assert (l ∈ dom (copy_map h v)) as [l' Hl']%elem_of_dom.
  { rewrite copy_map_dom. by apply reachable_roots. }
  exists l'. split; [done|]. by apply look_at_copy.
Qed.

(** Objects that are left alone look as before. *)
Lemma look_value_ext (deref deref' : loc → shape) v :
  (∀ l, l ∈ refs v → deref' l = deref l) →
  look_value deref' v = look_value deref v.
Proof.
  induction v as [| | | | |vs IH| |l] using value_ind'; intros Hd; simpl;
    try done.
  - f_equal. apply Forall_fmap_ext_1.
    rewrite Forall_forall in IH |- *. intros v Hv. apply IH; [done|].
    intros l Hl. apply Hd. simpl. apply elem_of_refs_list. eauto.
  - apply Hd. simpl. set_solver.
Qed.

Lemma look_at_frame (h h' : heap) n l :
  heap_closed h → (∀ x, x ∈ dom h → h' !! x = h !! x) →
  l ∈ dom h → look_at n h' l = look_at n h l.
Proof.
  intros Hh Hframe. revert l. induction n as [|n IH]; intros l Hl; [done|].
  simpl. rewrite Hframe by done.
  apply elem_of_dom in Hl as [o Ho]. rewrite Ho.
  assert (∀ x, x ∈ obj_values o →
            look_value (look_at n h') x = look_value (look_at n h) x) as Hvalues.
  { intros x Hx. apply look_value_ext. intros y Hy. apply IH.
    apply (Hh l o Ho), elem_of_obj_refs. eauto. }
  destruct o as [c d|items]; simpl in *; f_equal.
  - apply map_fmap_ext. intros k x Hk.
    apply Hvalues, list_elem_of_fmap. exists (k, x). split; [done|].
    by apply elem_of_map_to_list.
  - apply list_fmap_ext. intros i x Hx.
    apply Hvalues. apply list_elem_of_lookup. eauto.
Qed.

Lemma look_frame (h h' : heap) n v :
  heap_closed h → (∀ x, x ∈ dom h → h' !! x = h !! x) →
  refs v ⊆ dom h → look n h' v = look n h v.
Proof.
  intros Hh Hframe Hv. apply look_value_ext. intros l Hl.
  apply look_at_frame; auto.
Qed.

Lemma run_deepcopy E v σ :
  run E (deepcopy v) σ
  = (Returned (py_deepcopy (st_heap σ) v).1,
     set_heap (py_deepcopy (st_heap σ) v).2 σ).
Proof. reflexivity. Qed.



Lemma sample_heap_closed : heap_closed sample_heap.
Proof. apply (bool_decide_unpack _). vm_compute. exact I. Defined.


(** ** No state of their own *)


Lemma global_free_deepcopy v : global_free (deepcopy v).
Proof. intros h. by destruct (py_deepcopy h v). Qed.

Lemma global_free_convert w args : global_free (convert w args).
Proof.
  destruct w; destruct args as [|a [|b [|c [|d [|x rest]]]]]; simpl; auto;
    intros h; repeat case_match; simpl; auto using global_free_deepcopy;
    intros h'; case_match; simpl; auto.
Qed.

Lemma run_global_blind {A} E (p : prog A) σ g :
  env_global_blind E → global_free p →
  run E p (set_globals g σ) = ((run E p σ).1, set_globals g (run E p σ).2).
Proof.
  intros HE. revert σ.
  induction p as [| | |d args kw k IH|k IH|h k IH|x k IH|x v k IH|s k IH];
    intros σ Hp; simpl in *; try done.
  - rewrite HE. destruct (E d args kw σ) as [[v|e] σ']; simpl; [|done].
    by apply IH.
  - by apply IH.
  - by apply (IH (set_heap h σ)).
  - by apply (IH (put_line s σ)).
Qed.

Lemma frames_bind {A B} E (p : prog A) (f : A → prog B) :
  frames E p → (∀ a, frames E (f a)) → frames E (p ≫= f).
Proof.
  intros Hp Hf σ l Hl. rewrite run_bind.
  specialize (Hp σ l Hl). destruct (run E p σ) as [[a|e] σ']; simpl in *; [|done].
  rewrite Hf; [done|]. apply elem_of_dom. rewrite Hp. by apply elem_of_dom.
Qed.

Lemma frames_call E d args kw : env_frame E → frames E (call d args kw).
Proof. intros HE σ l Hl. rewrite run_call. by apply HE. Qed.

Lemma frames_deepcopy E v : frames E (deepcopy v).
Proof. intros σ l Hl. rewrite run_deepcopy. simpl. by apply deepcopy_frame. Qed.

Lemma frames_raise {A} E e : frames E (Raise e : prog A).
Proof. by intros σ l Hl. Qed.

Lemma frames_GetHeap {A} E (k : heap → prog A) :
  (∀ h, frames E (k h)) → frames E (GetHeap k).
Proof. intros Hk σ l Hl. simpl. by apply Hk. Qed.

Lemma frames_convert E w args : env_frame E → frames E (convert w args).
Proof.
  intros HE.
  assert (∀ d d' xs, frames E (sys ← call d xs ∅; call d' [sys] ∅)) as Htwo.
  { intros. apply frames_bind; auto using frames_call. }
  destruct w; destruct args as [|a [|b [|c [|d [|x rest]]]]];
    try apply frames_raise; try (by apply frames_call); try apply Htwo;
    apply frames_GetHeap; intros h; simpl;
    repeat case_match;
    auto using frames_raise, frames_call, frames_deepcopy.
  - apply frames_GetHeap. intros h'. simpl.
    case_match; auto using frames_raise, frames_call.
  - apply frames_GetHeap. intros h'.
    case_match; auto using frames_raise, frames_call.
Qed.

(** *** Equal arguments, equal results *)

Lemma alike_isinstance h1 v1 h2 v2 b :
  alike h1 v1 h2 v2 → py_isinstance h1 v1 b = py_isinstance h2 v2 b.
Proof.
  intros H. specialize (H 1). unfold look in H.
  destruct v1, v2; simpl in *; try done; repeat case_match; by simplify_eq.
Qed.

Lemma alike_deepcopy h1 v1 h2 v2 :
  heap_closed h1 → refs v1 ⊆ dom h1 → heap_closed h2 → refs v2 ⊆ dom h2 →
  alike h1 v1 h2 v2 →
  alike (py_deepcopy h1 v1).2 (py_deepcopy h1 v1).1
        (py_deepcopy h2 v2).2 (py_deepcopy h2 v2).1.
Proof. intros ????? n. by rewrite !look_deepcopy. Qed.

Lemma same_outcome_raise (e : exn) σ1 σ2 :
  same_outcome (Raised e, σ1) (Raised e, σ2).
Proof. reflexivity. Qed.

Lemma same_outcome_call E d args1 args2 σ1 σ2 :
  env_extensional E →
  well_formed σ1 args1 → well_formed σ2 args2 →
  Forall2 (λ v1 v2, alike (st_heap σ1) v1 (st_heap σ2) v2) args1 args2 →
  same_outcome (run E (call d args1 ∅) σ1) (run E (call d args2 ∅) σ2).
Proof. intros HE ???. rewrite !run_call. by apply HE. Qed.

Lemma run_two_calls E d d' args σ :
  run E (sys ← call d args ∅; call d' [sys] ∅) σ = feed E d' (E d args ∅ σ).
Proof.
  simpl. destruct (E d args ∅ σ) as [[v|e] σ']; [apply run_call|done].
Qed.

Lemma same_outcome_two_calls E d d' args1 args2 σ1 σ2 :
  env_extensional E → env_well_formed E →
  well_formed σ1 args1 → well_formed σ2 args2 →
  Forall2 (λ v1 v2, alike (st_heap σ1) v1 (st_heap σ2) v2) args1 args2 →
  same_outcome (run E (sys ← call d args1 ∅; call d' [sys] ∅) σ1)
               (run E (sys ← call d args2 ∅; call d' [sys] ∅) σ2).
Proof.
  intros HE Hwf H1 H2 Hargs. rewrite !run_two_calls.
  pose proof (HE d ∅ _ _ _ _ H1 H2 Hargs) as Hfirst.
  pose proof (Hwf d ∅ _ _ H1) as Hwf1. pose proof (Hwf d ∅ _ _ H2) as Hwf2.
  destruct (E d args1 ∅ σ1) as [[v1|e1] σ1'],
           (E d args2 ∅ σ2) as [[v2|e2] σ2']; try done.
  simpl. apply HE; [done..|]. by constructor.
Qed.

(** The one-argument forms, run. *)
Lemma run_tf2ss_system E sys σ :
  run E (tf2ss [sys]) σ
  = if py_isinstance (st_heap σ) sys BTransferFunction
    then E D_convertToStateSpace [sys] ∅ σ
    else (Raised TypeError, σ).
Proof.
  cbn [tf2ss run].
  destruct (py_isinstance (st_heap σ) sys BTransferFunction);
    [apply run_call|done].
Qed.

Lemma run_ss2tf_system E sys σ :
  run E (ss2tf [sys]) σ
  = if py_isinstance (st_heap σ) sys BStateSpace
    then E D_convertToTransferFunction [sys] ∅ σ
    else (Raised TypeError, σ).
Proof.
  cbn [ss2tf run].
  destruct (py_isinstance (st_heap σ) sys BStateSpace); [apply run_call|done].
Qed.

Lemma run_ss_system E sys σ :
  run E (ss [sys]) σ
  = if py_isinstance (st_heap σ) sys BStateSpace
    then run E (deepcopy sys) σ
    else if py_isinstance (st_heap σ) sys BTransferFunction
    then E D_convertToStateSpace [sys] ∅ σ
    else (Raised TypeError, σ).
Proof.
  cbn [ss run]. case_match; [done|].
  case_match eqn:Htf; [|done]. by rewrite run_tf2ss_system, Htf.
Qed.

Lemma run_tf_system E sys σ :
  run E (tf [sys]) σ
  = if py_isinstance (st_heap σ) sys BStateSpace
    then E D_convertToTransferFunction [sys] ∅ σ
    else if py_isinstance (st_heap σ) sys BTransferFunction
    then run E (deepcopy sys) σ
    else (Raised TypeError, σ).
Proof.
  cbn [tf run]. case_match eqn:Hss; [by rewrite run_ss2tf_system, Hss|].
  by case_match.
Qed.

Lemma convert_extensional E w args1 args2 σ1 σ2 :
  env_extensional E → env_well_formed E →
  well_formed σ1 args1 → well_formed σ2 args2 →
  Forall2 (λ v1 v2, alike (st_heap σ1) v1 (st_heap σ2) v2) args1 args2 →
  same_outcome (run E (convert w args1) σ1) (run E (convert w args2) σ2).
Proof.
  intros HE Hwf H1 H2 Hargs.
  pose proof (Forall2_length _ _ _ Hargs) as Hlen.
  destruct w;
    destruct args1 as [|a1 [|b1 [|c1 [|d1 [|x1 rest1]]]]];
    destruct args2 as [|a2 [|b2 [|c2 [|d2 [|x2 rest2]]]]];
    try discriminate Hlen;
    try apply same_outcome_raise;
    try (by apply same_outcome_call);
    try (by apply same_outcome_two_calls).
  all: pose proof (HE D_convertToStateSpace ∅ _ _ _ _ H1 H2 Hargs) as Hss.
  all: pose proof (HE D_convertToTransferFunction ∅ _ _ _ _ H1 H2 Hargs) as Htf.
  all: apply Forall2_cons_1 in Hargs as [Ha _].
  all: destruct H1 as [Hc1 [Hr1 _]%Forall_cons_1].
  all: destruct H2 as [Hc2 [Hr2 _]%Forall_cons_1].
  all: cbn [convert].
  all: rewrite ?run_ss_system, ?run_tf_system, ?run_ss2tf_system,
         ?run_tf2ss_system.
  all: rewrite ?(alike_isinstance _ _ _ _ BStateSpace Ha),
         ?(alike_isinstance _ _ _ _ BTransferFunction Ha).
  all: repeat case_match; try done; rewrite !run_deepcopy.
  all: by apply alike_deepcopy.
Qed.

(** *** The sample environment is of that kind *)

Lemma heap_closed_insert h l o :
  heap_closed h → obj_refs o ⊆ dom h ∪ {[ l ]} → heap_closed (<[l := o]> h).
Proof.
  intros Hh Ho l' o' Hl'. rewrite dom_insert_L.
  destruct (decide (l = l')) as [->|Hne].
  - rewrite lookup_insert_eq in Hl'. simplify_eq. set_solver.
  - rewrite lookup_insert_ne in Hl' by done.
    pose proof (Hh l' o' Hl'). set_solver.
Qed.

Lemma obj_refs_instance c (d : list (string * value)) x :
  x ∈ obj_refs (OInstance c (list_to_map d)) →
  ∃ k v, (k, v) ∈ d ∧ x ∈ refs v.
Proof.
  intros (v & ([k v'] & -> & Hkv)%list_elem_of_fmap & Hx)%elem_of_obj_refs.
  apply elem_of_map_to_list, elem_of_list_to_map_2 in Hkv. eauto.
Qed.

Lemma getattr_refs h v name x :
  heap_closed h → py_getattr h v name = Some x → refs x ⊆ dom h.
Proof.
  intros Hh Hx. destruct v; simpl in Hx; repeat case_match; simplify_eq;
    try apply empty_subseteq.
  intros y Hy.
  match goal with H : h !! _ = Some _ |- _ => apply (Hh _ _ H) end.
  apply elem_of_obj_refs. eexists. split; [|done].
  apply list_elem_of_fmap. eexists (_, _). split; [done|].
  by apply elem_of_map_to_list.
Qed.

Lemma new_instance_well_formed b d σ :
  heap_closed (st_heap σ) →
  Forall (λ kv, refs kv.2 ⊆ dom (st_heap σ)) d →
  well_formed (new_instance b d σ).2 [(VRef (fresh (dom (st_heap σ))))].
Proof.
  intros Hh Hd. split; simpl.
  - apply heap_closed_insert; [done|].
    intros x (k & v & Hkv & Hx)%obj_refs_instance.
    rewrite Forall_forall in Hd. specialize (Hd _ Hkv). set_solver.
  - constructor; [|done]. rewrite dom_insert_L. set_solver.
Qed.

Lemma well_formed_result σ vs v :
  well_formed σ vs → refs v ⊆ ⋃ (refs <$> vs) → well_formed σ [v].
Proof.
  intros [Hh Hvs] Hv. split; [done|]. constructor; [|done].
  intros x (w & Hw & Hx)%Hv%elem_of_refs_list.
  rewrite Forall_forall in Hvs. by apply (Hvs w).
Qed.

Lemma scalars_no_refs :
  (∀ a r, mat_inv scalars a = Some r → refs r = ∅)
  ∧ (∀ x y r, mat_mul scalars x y = Some r → refs r = ∅)
  ∧ (∀ x y r, mat_sub scalars x y = Some r → refs r = ∅).
Proof.
  split_and!; intros; unfold scalars in *; simpl in *;
    repeat case_match; by simplify_eq.
Qed.

Lemma answer_well_formed o σ :
  heap_closed (st_heap σ) → (∀ r, o = Some r → refs r = ∅) →
  match answer o σ with
  | (Returned v, σ') => well_formed σ' [v]
  | (Raised _, σ') => heap_closed (st_heap σ')
  end.
Proof.
  intros Hh Ho. destruct o as [r|]; simpl; [|done].
  split; [done|]. constructor; [|done]. rewrite (Ho r) by done.
  apply empty_subseteq.
Qed.

Lemma scalar_env_well_formed : env_well_formed scalar_env.
Proof.
  intros d kw args σ Hwf. pose proof Hwf as [Hh Hargs].
  destruct scalars_no_refs as (Hinv & Hmul & Hsub).
  unfold scalar_env, unsupported.
  destruct d; destruct args as [|a [|b [|c [|x [|y [|z rest]]]]]];
    try done;
    try (apply (well_formed_result σ _ _ Hwf); simpl; set_solver);
    try (apply answer_well_formed; by eauto);
    repeat match goal with
           | H : Forall _ (_ :: _) |- _ => apply Forall_cons_1 in H as [? H]
           end.
  - apply (new_instance_well_formed BStateSpace _ σ Hh).
    by repeat constructor.
  - apply (new_instance_well_formed BTransferFunction _ σ Hh).
    by repeat constructor.
  - destruct (py_getattr (st_heap σ) a "num") as [num|] eqn:Hnum; [|done].
    destruct (py_getattr (st_heap σ) a "den") as [[]|]; try done.
    apply (new_instance_well_formed BStateSpace _ σ Hh).
    repeat constructor; simpl; try apply empty_subseteq.
    by eapply getattr_refs.
Qed.

Lemma alike_no_refs h1 h2 v : refs v = ∅ → alike h1 v h2 v.
Proof.
  intros Hv n. apply look_value_ext. intros l Hl. rewrite Hv in Hl.
  by apply not_elem_of_empty in Hl.
Qed.

Lemma alike_tuple h1 h2 vs1 vs2 :
  Forall2 (λ v1 v2, alike h1 v1 h2 v2) vs1 vs2 →
  alike h1 (VTuple vs1) h2 (VTuple vs2).
Proof.
  intros Hvs n. unfold look. simpl. f_equal.
  induction Hvs as [|v1 v2 vs1 vs2 Hv _ IH]; simpl; [done|].
  f_equal; [apply Hv|apply IH].
Qed.

Lemma alike_scalars h1 a1 h2 a2 :
  alike h1 a1 h2 a2 → mat_inv scalars a1 = mat_inv scalars a2.
Proof.
  intros H. specialize (H 1). unfold look in H.
  destruct a1, a2; simpl in H; try done; simplify_eq; try reflexivity;
    simpl; repeat case_match; by simplify_eq.
Qed.

Lemma alike_scalars2 h1 a1 b1 h2 a2 b2 :
  alike h1 a1 h2 a2 → alike h1 b1 h2 b2 →
  mat_mul scalars a1 b1 = mat_mul scalars a2 b2
  ∧ mat_sub scalars a1 b1 = mat_sub scalars a2 b2.
Proof.
  intros Ha Hb. specialize (Ha 1). specialize (Hb 1). unfold look in Ha, Hb.
  destruct a1, a2; simpl in Ha; try done; simplify_eq;
    try (by simpl; repeat case_match; simplify_eq).
  all: destruct b1, b2; simpl in Hb; try done; simplify_eq; try done;
    simpl; repeat case_match; by simplify_eq.
Qed.

Lemma same_outcome_answer o σ1 σ2 :
  (∀ r, o = Some r → refs r = ∅) →
  same_outcome (answer o σ1) (answer o σ2).
Proof.
  intros Ho. destruct o as [r|]; [|done]. simpl. apply alike_no_refs; auto.
Qed.

Lemma alike_getattr h1 v1 h2 v2 name :
  alike h1 v1 h2 v2 →
  match py_getattr h1 v1 name, py_getattr h2 v2 name with
  | Some x1, Some x2 => alike h1 x1 h2 x2
  | None, None => True
  | _, _ => False
  end.
Proof.
  intros H. pose proof (H 1) as H1. unfold look in H1.
  destruct v1 as [| | | | |vs1| |l1], v2 as [| | | | |vs2| |l2];
    simpl in H1 |- *; try done; try (by repeat case_match).
  { destruct (name =? "__iter__")%string; [|done]. by apply alike_no_refs. }
  destruct (h1 !! l1) as [[c1 d1|items1]|] eqn:Hl1,
           (h2 !! l2) as [[c2 d2|items2]|] eqn:Hl2; try done.
  - assert (c1 = c2) as <- by congruence.
    assert (∀ n, look_value (look_at n h1) <$> d1 !! name
                 = look_value (look_at n h2) <$> d2 !! name) as Hname.
    { intros n. specialize (H (S n)). unfold look in H. cbn in H.
      rewrite Hl1, Hl2 in H. rewrite <-!lookup_fmap. congruence. }
    destruct (d1 !! name) as [x1|] eqn:Hx1, (d2 !! name) as [x2|] eqn:Hx2;
      try (by specialize (Hname 0)).
    + intros n. specialize (Hname n). by simplify_eq/=.
    + destruct (cls_iter c1 && (name =? "__iter__")%string); [|done].
      by apply alike_no_refs.
  - destruct (name =? "__iter__")%string; [|done]. by apply alike_no_refs.
Qed.

Lemma look_fresh_insert h o n v :
  heap_closed h → refs v ⊆ dom h →
  look n (<[fresh (dom h) := o]> h) v = look n h v.
Proof.
  intros Hh Hv. apply look_frame; [done| |done].
  intros x Hx. apply lookup_insert_ne. intros <-.
  by apply (is_fresh (dom h)).
Qed.

Lemma fields_alike (d1 d2 : list (string * value)) h1 h2 o1 o2 n :
  heap_closed h1 → heap_closed h2 →
  Forall2 (λ kv1 kv2,
    kv1.1 = kv2.1
    ∧ refs kv1.2 ⊆ dom h1 ∧ refs kv2.2 ⊆ dom h2
    ∧ alike h1 kv1.2 h2 kv2.2) d1 d2 →
  look_value (look_at n (<[fresh (dom h1) := o1]> h1))
    <$> (list_to_map d1 : gmap string value)
  = look_value (look_at n (<[fresh (dom h2) := o2]> h2))
      <$> (list_to_map d2 : gmap string value).
Proof.
  intros Hh1 Hh2 Hd.
  induction Hd as [|[k1 v1] [k2 v2] d1 d2 (Hk & Hv1 & Hv2 & Hv) _ IH];
    simpl in *; [by rewrite !fmap_empty|].
  rewrite !fmap_insert. subst k2. f_equal; [|done].
  pose proof (look_fresh_insert h1 o1 n v1 Hh1 Hv1) as Hl1.
  pose proof (look_fresh_insert h2 o2 n v2 Hh2 Hv2) as Hl2.
  unfold look in Hl1, Hl2. rewrite Hl1, Hl2. apply Hv.
Qed.

Lemma new_instance_alike b (d1 d2 : list (string * value)) σ1 σ2 :
  heap_closed (st_heap σ1) → heap_closed (st_heap σ2) →
  Forall2 (λ kv1 kv2,
    kv1.1 = kv2.1
    ∧ refs kv1.2 ⊆ dom (st_heap σ1) ∧ refs kv2.2 ⊆ dom (st_heap σ2)
    ∧ alike (st_heap σ1) kv1.2 (st_heap σ2) kv2.2) d1 d2 →
  same_outcome (new_instance b d1 σ1) (new_instance b d2 σ2).
Proof.
  intros Hh1 Hh2 Hd [|n]; [done|]. unfold look. cbn.
  rewrite !lookup_insert_eq. f_equal. by apply fields_alike.
Qed.

Lemma alike_float h1 x1 h2 x2 :
  alike h1 x1 h2 x2 →
  match x1, x2 with
  | VFloat q1, VFloat q2 => q1 = q2
  | VFloat _, _ | _, VFloat _ => False
  | _, _ => True
  end.
Proof.
  intros H. specialize (H 1). unfold look in H.
  destruct x1, x2; simpl in H; try done; repeat case_match; by simplify_eq.
Qed.

Lemma scalar_env_extensional : env_extensional scalar_env.
Proof.
  intros d kw args1 args2 σ1 σ2 H1 H2 Hargs.
  pose proof (Forall2_length _ _ _ Hargs) as Hlen.
  pose proof H1 as [Hh1 Hr1]. pose proof H2 as [Hh2 Hr2].
  destruct scalars_no_refs as (Hinv & Hmul & Hsub).
  unfold scalar_env, unsupported.
  destruct d;
    destruct args1 as [|a1 [|b1 [|c1 [|x1 [|y1 [|z1 rest1]]]]]];
    destruct args2 as [|a2 [|b2 [|c2 [|x2 [|y2 [|z2 rest2]]]]]];
    try discriminate Hlen; try done;
    try (by apply alike_no_refs; eauto);
    repeat match goal with
           | H : Forall2 _ (_ :: _) (_ :: _) |- _ =>
               apply Forall2_cons_1 in H as [? H]
           | H : Forall _ (_ :: _) |- _ => apply Forall_cons_1 in H as [? H]
           end;
    try (apply alike_tuple; repeat constructor; by try apply alike_no_refs);
    try (by apply new_instance_alike; [done..|repeat constructor]).
  - pose proof (alike_getattr _ _ _ _ "num" H) as Hnum.
    pose proof (alike_getattr _ _ _ _ "den" H) as Hden.
    destruct (py_getattr (st_heap σ1) a1 "num") as [num1|] eqn:Hnum1,
             (py_getattr (st_heap σ2) a2 "num") as [num2|] eqn:Hnum2;
      try done.
    destruct (py_getattr (st_heap σ1) a1 "den") as [den1|] eqn:Hden1,
             (py_getattr (st_heap σ2) a2 "den") as [den2|] eqn:Hden2;
      try done; try (by destruct den1); try (by destruct den2).
    apply alike_float in Hden.
    destruct den1, den2; try done. subst.
    apply new_instance_alike; [done..|].
    repeat constructor; simpl; try apply empty_subseteq;
      try (by apply alike_no_refs); try (by eapply getattr_refs); done.
  - simpl.
    rewrite (alike_isinstance _ _ _ _ BStateSpace H),
      (alike_isinstance _ _ _ _ BTransferFunction H).
    by apply alike_no_refs.
  - rewrite (alike_scalars _ _ _ _ H). apply same_outcome_answer. eauto.
  - destruct (alike_scalars2 _ _ _ _ _ _ H H0) as [-> _].
    apply same_outcome_answer. eauto.
  - destruct (alike_scalars2 _ _ _ _ _ _ H H0) as [_ ->].
    apply same_outcome_answer. eauto.
Qed.

Lemma new_instance_global_blind b d σ g :
  new_instance b d (set_globals g σ)
  = ((new_instance b d σ).1, set_globals g (new_instance b d σ).2).
Proof. reflexivity. Qed.

Lemma scalar_env_global_blind : env_global_blind scalar_env.
Proof.
  intros d args kw σ g. unfold scalar_env, answer.
  destruct d; destruct args as [|a [|b [|c [|x [|y [|z rest]]]]]];
    try reflexivity; simpl st_heap; repeat case_match; reflexivity.
Qed.

Lemma new_instance_frame b d σ l :
  l ∈ dom (st_heap σ) →
  st_heap (new_instance b d σ).2 !! l = st_heap σ !! l.
Proof.
  intros Hl. simpl. apply lookup_insert_ne. intros <-.
  by apply (is_fresh (dom (st_heap σ))).
Qed.

Lemma scalar_env_frame : env_frame scalar_env.
Proof.
  intros d args kw σ l Hl. unfold scalar_env, answer, unsupported.
  destruct d; destruct args as [|a [|b [|c [|x [|y [|z rest]]]]]];
    try reflexivity; repeat case_match;
    first [ reflexivity | by apply new_instance_frame ].
Qed.

(** C7: the conversion wrappers keep no state.  A call reads and writes no
    module-level variable: run against routines that do not either, it
    returns the same result, with the same effect on the store, whatever
    the module-level variables hold, and leaves them as they are.  A call
    leaves the objects that exist alone, when the routines it calls do.  And
    two calls with arguments that cannot be told apart end alike, in the
    same exception or in results that cannot be told apart, in whatever
    states they are made, that is, whatever calls were made before them,
    when the routines they call answer by their arguments alone. *)
Theorem conversions_keep_no_state (w : conversion) E :
  env_global_blind E →
  env_frame E →
  env_well_formed E →
  env_extensional E →
  (∀ args, global_free (convert w args))
  ∧ (∀ args σ g,
       run E (convert w args) (set_globals g σ)
       = ((run E (convert w args) σ).1,
          set_globals g (run E (convert w args) σ).2))
  ∧ (∀ args σ l,
       l ∈ dom (st_heap σ) →
       st_heap (run E (convert w args) σ).2 !! l = st_heap σ !! l)
  ∧ (∀ args1 args2 σ1 σ2,
       well_formed σ1 args1 → well_formed σ2 args2 →
       Forall2 (λ v1 v2, alike (st_heap σ1) v1 (st_heap σ2) v2) args1 args2 →
       same_outcome (run E (convert w args1) σ1)
                    (run E (convert w args2) σ2)).
Proof.
  intros Hblind Hframe Hwf Hext. split_and!.
  - apply global_free_convert.
  - intros args σ g. apply run_global_blind; [done|apply global_free_convert].
  - intros args. by apply frames_convert.
  - intros args1 args2 σ1 σ2. by apply convert_extensional.
Qed.

(** Two calls of [ss] on the sample system, one after the other: two
    different objects that cannot be told apart. *)
Lemma conversions_keep_no_state_witness :
  let first := run scalar_env (convert C_ss [VRef 1%positive]) sample_state in
  let second := run scalar_env (convert C_ss [VRef 1%positive]) first.2 in
  same_outcome first second ∧ first.1 ≠ second.1.
Proof.
  intros first second. split; [|by vm_compute].
  apply (conversions_keep_no_state C_ss scalar_env
           scalar_env_global_blind scalar_env_frame
           scalar_env_well_formed scalar_env_extensional).
  - split; [exact sample_heap_closed|].
    repeat constructor. apply (bool_decide_unpack _). by vm_compute.
  - split; [apply (bool_decide_unpack _); by vm_compute|].
    repeat constructor. apply (bool_decide_unpack _). by vm_compute.
  - repeat constructor. intros n. symmetry.
    apply look_frame; [exact sample_heap_closed| |].
    + intros x Hx. by apply (frames_convert scalar_env C_ss _ scalar_env_frame).
    + apply (bool_decide_unpack _). by vm_compute.
Defined.

(** * Further properties *)

(** ** Conversions between the two classes *)

Lemma isinstance_one_class h v b b' :
  py_isinstance h v b = true → b ≠ b' → py_isinstance h v b' = false.
Proof.
  intros Hb Hne. destruct v; try done. simpl in *.
  repeat case_match; try done.
  apply bool_decide_eq_true in Hb. apply bool_decide_eq_false. congruence.
Qed.

Lemma run_ss_transfer_function E t σ :
  py_isinstance (st_heap σ) t BTransferFunction = true →
  run E (ss [t]) σ = E D_convertToStateSpace [t] ∅ σ.
Proof.
  intros Ht.
  by rewrite run_ss_system, Ht, (isinstance_one_class _ _ _ BStateSpace Ht).
Qed.

Lemma run_tf_state_space E s σ :
  py_isinstance (st_heap σ) s BStateSpace = true →
  run E (tf [s]) σ = E D_convertToTransferFunction [s] ∅ σ.
Proof. intros Hs. by rewrite run_tf_system, Hs. Qed.

(** X1: given an instance of the other class, a conversion wrapper is the
    conversion routine applied to it: [ss(t)] and [tf2ss(t)] are
    [_convertToStateSpace(t)] for a [TransferFunction] [t], and [tf(s)] and
    [ss2tf(s)] are [_convertToTransferFunction(s)] for a [StateSpace] [s]. *)
Theorem conversion_across_classes (w : conversion) (sys : value) E σ :
  py_isinstance (st_heap σ) sys (crosses w).1 = true →
  run E (convert w [sys]) σ = E (crosses w).2 [sys] ∅ σ.
Proof.
  intros Hsys. destruct w; cbn [convert crosses fst snd] in *.
  - by apply run_ss_transfer_function.
  - by apply run_tf_state_space.
  - by rewrite run_ss2tf_system, Hsys.
  - by rewrite run_tf2ss_system, Hsys.
Qed.

Lemma conversion_across_classes_witness :
  run scalar_env (convert C_ss [VRef 6%positive]) sample_state
  = scalar_env D_convertToStateSpace [VRef 6%positive] ∅ sample_state.
Proof.
  apply (conversion_across_classes C_ss (VRef 6%positive)). reflexivity.
Defined.

(** X2: the wrappers compose as their names say.  When [TransferFunction]
    returns an instance of its class, [ss(tf(num, den))] is
    [tf2ss(num, den)]; when [StateSpace] returns an instance of its class,
    [tf(ss(A, B, C, D))] is [ss2tf(A, B, C, D)]. *)
Theorem conversions_compose E σ (a b c d num den : value) :
  constructs E D_TransferFunction [num; den] σ BTransferFunction →
  constructs E D_StateSpace [a; b; c; d] σ BStateSpace →
  run E (t ← tf [num; den]; ss [t]) σ = run E (tf2ss [num; den]) σ
  ∧ run E (s ← ss [a; b; c; d]; tf [s]) σ = run E (ss2tf [a; b; c; d]) σ.
Proof.
  unfold constructs. intros Htf Hss. split.
  - rewrite run_bind. cbn [tf tf2ss]. rewrite run_two_calls, run_call.
    destruct (E D_TransferFunction [num; den] ∅ σ) as [[t|e] σ']; [|done].
    by apply run_ss_transfer_function.
  - rewrite run_bind. cbn [ss ss2tf]. rewrite run_two_calls, run_call.
    destruct (E D_StateSpace [a; b; c; d] ∅ σ) as [[s|e] σ']; [|done].
    by apply run_tf_state_space.
Qed.

Lemma conversions_compose_witness :
  run scalar_env (t ← tf [VFloat 3; VFloat 2]; ss [t]) sample_state
  = run scalar_env (tf2ss [VFloat 3; VFloat 2]) sample_state
  ∧ run scalar_env
      (s ← ss [VFloat (-2); VFloat 1; VFloat 3; VFloat 0]; tf [s]) sample_state
    = run scalar_env (ss2tf [VFloat (-2); VFloat 1; VFloat 3; VFloat 0])
        sample_state.
Proof.
  apply (conversions_compose scalar_env sample_state); vm_compute; reflexivity.
Defined.

(** ** The MATLAB calling format of bode *)

Section bode_scan.
Context (E : env) (sys : heap → value → bool).
Hypothesis Hissys : issys_is E sys.

(** One round of the loop at a system with no plot style after it. *)
Lemma run_scan_system a rest syslist plotstyle σ :
  sys (st_heap σ) a = true →
  (∀ b rest', rest = b :: rest' → py_is_str b = false) →
  run E (bode_scan (a :: rest) syslist plotstyle) σ
  = run E (bode_scan rest (syslist ++ [a]) plotstyle) σ.
Proof.
  intros Ha Hrest. cbn [bode_scan run]. rewrite Hissys, Ha. cbn [run py_truthy].
  destruct rest as [|b rest']; [done|].
  by rewrite (Hrest b rest' eq_refl).
Qed.

(** One round of the loop at a system followed by a plot style. *)
Lemma run_scan_styled a style rest syslist plotstyle σ :
  sys (st_heap σ) a = true →
  run E (bode_scan (a :: VStr style :: rest) syslist plotstyle) σ
  = run E (bode_scan rest (syslist ++ [a]) (plotstyle ++ [VStr style])) σ.
Proof.
  intros Ha. cbn [bode_scan run]. rewrite Hissys, Ha. by cbn [run py_truthy].
Qed.

(** The round that ends the loop: a list of frequencies. *)
Lemma run_scan_frequencies w rest syslist plotstyle σ :
  sys (st_heap σ) w = false →
  py_is_list_or_ndarray (st_heap σ) w = true →
  run E (bode_scan (w :: rest) syslist plotstyle) σ
  = (Returned (syslist, plotstyle, w, rest), σ).
Proof.
  intros Hw Hlist. cbn [bode_scan run]. rewrite Hissys, Hw. cbn [run py_truthy].
  by rewrite Hlist.
Qed.

(** The round that rejects an argument. *)
Lemma run_scan_unrecognized a rest syslist plotstyle σ :
  sys (st_heap σ) a = false →
  py_is_list_or_ndarray (st_heap σ) a = false →
  run E (bode_scan (a :: rest) syslist plotstyle) σ
  = (Raised ControlArgument, σ).
Proof.
  intros Ha Hlist. cbn [bode_scan run]. rewrite Hissys, Ha. cbn [run py_truthy].
  by rewrite Hlist.
Qed.

(** The loop over systems and their plot styles.  What follows them must
    not be taken for the plot style of the last system. *)
Lemma run_scan_entries entries tail syslist plotstyle σ :
  Forall (λ e, scanned_as_system sys (st_heap σ) e.1) entries →
  (∀ s b rest, last entries = Some (s, None) → tail = b :: rest →
               py_is_str b = false) →
  run E (bode_scan (entries_args entries ++ tail) syslist plotstyle) σ
  = run E (bode_scan tail (syslist ++ entries.*1)
             (plotstyle ++ entry_styles entries)) σ.
Proof.
  revert syslist plotstyle.
  induction entries as [|[s o] entries IH]; intros syslist plotstyle Hall Htail.
  { simpl. by rewrite !app_nil_r. }
  apply Forall_cons in Hall as [[Hs Hstr] Hall].
  assert (∀ s' b rest, last entries = Some (s', None) → tail = b :: rest →
                       py_is_str b = false) as Htail'.
  { intros s' b rest Hlast. apply (Htail s').
    destruct entries; [done|]. by rewrite last_cons_cons. }
  change (entries_args ((s, o) :: entries))
    with (entry_args (s, o) ++ entries_args entries)%list.
  destruct o as [style|]; cbn [entry_args from_option fst snd app].
  - rewrite run_scan_styled by done. rewrite IH by done.
    cbn [entry_styles omap fmap option_fmap option_map fst snd fmap list_fmap].
    by rewrite <- !app_assoc.
  - rewrite run_scan_system; [|done|].
    + rewrite IH by done.
      cbn [entry_styles omap fmap option_fmap option_map fst snd list_fmap].
      by rewrite <- !app_assoc.
    + intros b rest. destruct entries as [|[s' o'] entries'].
      * simpl. intros ->. by apply (Htail s b rest).
      * apply Forall_cons in Hall as [[_ Hstr'] _].
        change (entries_args ((s', o') :: entries'))
          with (entry_args (s', o') ++ entries_args entries')%list.
        cbn [entry_args app fst]. by intros [= <- _].
Qed.

Lemma run_scan_matlab_args entries omega σ :
  Forall (λ e, scanned_as_system sys (st_heap σ) e.1) entries →
  (∀ w, omega = Some w →
        sys (st_heap σ) w = false
        ∧ py_is_list_or_ndarray (st_heap σ) w = true) →
  run E (bode_scan (matlab_args entries omega) [] []) σ
  = (Returned (entries.*1, entry_styles entries, default VNone omega, []), σ).
Proof.
  intros Hall Homega. unfold matlab_args. rewrite run_scan_entries; [|done|].
  - destruct omega as [w|]; cbn [from_option default app].
    + destruct (Homega w eq_refl) as [Hw Hlist].
      by rewrite run_scan_frequencies.
    + done.
  - intros s b rest _. destruct omega as [w|]; [|done].
    intros [= <- _]. destruct (Homega w eq_refl) as [_ Hlist].
    by destruct w.
Qed.
End bode_scan.

(** [bode] past its first test. *)
Lemma run_bode_no_iter E args a0 kw σ :
  head args = Some a0 → has_true_iter (st_heap σ) a0 = false →
  run E (bode args kw) σ = run E (bode_matlab args kw) σ.
Proof.
  unfold has_true_iter. destruct args as [|a args]; [done|].
  intros [= ->] Hiter. cbn [bode run]. by rewrite Hiter.
Qed.

(** What [bode] does with the result of its scan. *)
Lemma run_bode_scanned E args kw σ syslist plotstyle omega rest :
  run E (bode_scan args [] []) σ
  = (Returned (syslist, plotstyle, omega, rest), σ) →
  run E (bode_matlab args kw) σ
  = if negb (bool_decide (rest = [])) then (Raised ControlArgument, σ)
    else if negb (length plotstyle =? 0)%nat
            && negb (length syslist =? length plotstyle)%nat
    then (Raised ControlArgument, σ)
    else
      let l := fresh (dom (st_heap σ)) in
      E D_freqplot_bode [VRef l; omega] kw
        (set_heap (<[l := OList syslist]> (st_heap σ))
           (if (length plotstyle =? 0)%nat then σ
            else put_line bode_warning σ)).
Proof.
  intros Hscan. unfold bode_matlab. rewrite run_bind, Hscan.
  destruct (negb (bool_decide (rest = []))); [done|].
  destruct (negb (length plotstyle =? 0)%nat
            && negb (length syslist =? length plotstyle)%nat); [done|].
  destruct (length plotstyle =? 0)%nat; cbn [negb id];
    [|cbn [run]]; rewrite run_bind; cbn [alloc run]; apply run_call.
Qed.

Lemma entry_styles_length entries :
  (length (entry_styles entries) ≤ length entries)%nat.
Proof.
  induction entries as [|[s [style|]] entries IH]; simpl; lia.
Qed.

(** X3: the MATLAB calling format of [bode] is accepted.  The arguments are
    systems, either none or each of them followed by a plot style, and
    perhaps a list of frequencies at the end.  Then [freqplot.bode] is called
    once, with a new list of the systems in the order given, the frequencies
    or [None], and the keywords as they came; the warning is printed first
    when, and only when, plot styles were given. *)
Theorem bode_matlab_format E sys σ entries omega a0 kw :
  issys_is E sys →
  head (matlab_args entries omega) = Some a0 →
  has_true_iter (st_heap σ) a0 = false →
  Forall (λ e, scanned_as_system sys (st_heap σ) e.1) entries →
  (∀ w, omega = Some w →
        sys (st_heap σ) w = false
        ∧ py_is_list_or_ndarray (st_heap σ) w = true) →
  entry_styles entries = [] ∨ length (entry_styles entries) = length entries →
  run E (bode (matlab_args entries omega) kw) σ
  = let l := fresh (dom (st_heap σ)) in
    E D_freqplot_bode [VRef l; default VNone omega] kw
      (set_heap (<[l := OList entries.*1]> (st_heap σ))
         (if bool_decide (entry_styles entries = []) then σ
          else put_line bode_warning σ)).
Proof.
  intros Hissys Hhead Hiter Hall Homega Hstyles.
  rewrite (run_bode_no_iter _ _ a0) by done.
  rewrite (run_bode_scanned _ _ _ _ _ _ _ _
             (run_scan_matlab_args E sys Hissys entries omega σ Hall Homega)).
  cbn [bool_decide decide_rel negb]. rewrite length_fmap.
  destruct Hstyles as [Hnone|Hall_styled].
  - rewrite Hnone. by cbn.
  - rewrite <- Hall_styled, Nat.eqb_refl, andb_false_r.
    by destruct (entry_styles entries) as [|style styles].
Qed.

Lemma scalar_env_issys :
  issys_is scalar_env
    (λ h v, py_isinstance h v BStateSpace || py_isinstance h v BTransferFunction).
Proof. by intros a σ. Qed.

Lemma bode_matlab_format_witness :
  run scalar_env
    (bode [VRef 1%positive; VStr "r"; VRef 6%positive; VStr "b--";
           VRef 2%positive] ∅) sample_state
  = (Returned (VTuple [VStr "mag"; VStr "phase"; VStr "omega"]),
     State (<[8%positive := OList [VRef 1%positive; VRef 6%positive]]>
              sample_heap) ∅ [bode_warning]).
Proof.
  rewrite (bode_matlab_format scalar_env _ sample_state
             [(VRef 1%positive, Some "r"); (VRef 6%positive, Some "b--")]
             (Some (VRef 2%positive)) (VRef 1%positive) ∅ scalar_env_issys).
  - reflexivity.
  - reflexivity.
  - reflexivity.
  - repeat constructor.
  - intros w [= <-]. split; reflexivity.
  - right. reflexivity.
Defined.

(** X4: plot styles for some of the systems only are rejected.  When at
    least one system has a plot style after it and at least one has none,
    [bode] raises [ControlArgument]; [freqplot.bode] is not called and
    nothing is printed. *)
Theorem bode_partly_styled E sys σ entries omega a0 kw :
  issys_is E sys →
  head (matlab_args entries omega) = Some a0 →
  has_true_iter (st_heap σ) a0 = false →
  Forall (λ e, scanned_as_system sys (st_heap σ) e.1) entries →
  (∀ w, omega = Some w →
        sys (st_heap σ) w = false
        ∧ py_is_list_or_ndarray (st_heap σ) w = true) →
  entry_styles entries ≠ [] →
  length (entry_styles entries) ≠ length entries →
  run E (bode (matlab_args entries omega) kw) σ = (Raised ControlArgument, σ).
Proof.
  intros Hissys Hhead Hiter Hall Homega Hsome Hnotall.
  rewrite (run_bode_no_iter _ _ a0) by done.
  rewrite (run_bode_scanned _ _ _ _ _ _ _ _
             (run_scan_matlab_args E sys Hissys entries omega σ Hall Homega)).
  cbn [bool_decide decide_rel negb]. rewrite length_fmap.
  destruct (entry_styles entries) as [|style styles] eqn:Hs; [done|].
  apply Nat.eqb_neq in Hnotall. rewrite Nat.eqb_sym in Hnotall.
  by rewrite Hnotall.
Qed.

Lemma bode_partly_styled_witness :
  run scalar_env
    (bode [VRef 1%positive; VStr "r"; VRef 6%positive] ∅) sample_state
  = (Raised ControlArgument, sample_state).
Proof.
  apply (bode_partly_styled scalar_env _ sample_state
           [(VRef 1%positive, Some "r"); (VRef 6%positive, None)]
           None (VRef 1%positive) ∅ scalar_env_issys).
  - reflexivity.
  - reflexivity.
  - repeat constructor.
  - intros w [=].
  - intros [=].
  - intros [=].
Defined.

(** X5: an argument that is neither a system, nor a list or array, nor a
    plot style in its place right after a system, is rejected.  Whatever
    comes after it, [bode] raises [ControlArgument] without calling
    [freqplot.bode]. *)
Theorem bode_unrecognized_argument E sys σ entries bad rest a0 kw :
  issys_is E sys →
  head (entries_args entries ++ bad :: rest) = Some a0 →
  has_true_iter (st_heap σ) a0 = false →
  Forall (λ e, scanned_as_system sys (st_heap σ) e.1) entries →
  sys (st_heap σ) bad = false →
  py_is_list_or_ndarray (st_heap σ) bad = false →
  (py_is_str bad = true → ∀ s, last entries ≠ Some (s, None)) →
  run E (bode (entries_args entries ++ bad :: rest) kw) σ
  = (Raised ControlArgument, σ).
Proof.
  intros Hissys Hhead Hiter Hall Hbad Hlist Hplace.
  rewrite (run_bode_no_iter _ _ a0) by done.
  unfold bode_matlab. rewrite run_bind, (run_scan_entries E sys Hissys).
  - by rewrite (run_scan_unrecognized E sys Hissys).
  - done.
  - intros s b rest' Hlast [= <- _].
    destruct (py_is_str bad) eqn:Hstr; [|done].
    by destruct (Hplace eq_refl s).
Qed.

Lemma bode_unrecognized_argument_witness :
  run scalar_env
    (bode [VRef 1%positive; VStr "r"; VStr "b--"; VRef 6%positive] ∅)
    sample_state
  = (Raised ControlArgument, sample_state).
Proof.
  apply (bode_unrecognized_argument scalar_env _ sample_state
           [(VRef 1%positive, Some "r")] (VStr "b--") [VRef 6%positive]
           (VRef 1%positive) ∅ scalar_env_issys).
  - reflexivity.
  - reflexivity.
  - repeat constructor.
  - reflexivity.
  - reflexivity.
  - intros _ s [=].
Defined.

(** X6: the list of frequencies ends the argument list.  Any argument after
    it, be it a system, makes [bode] raise [ControlArgument] without calling
    [freqplot.bode]. *)
Theorem bode_after_frequencies E sys σ entries w extra rest a0 kw :
  issys_is E sys →
  head (matlab_args entries (Some w) ++ extra :: rest) = Some a0 →
  has_true_iter (st_heap σ) a0 = false →
  Forall (λ e, scanned_as_system sys (st_heap σ) e.1) entries →
  sys (st_heap σ) w = false →
  py_is_list_or_ndarray (st_heap σ) w = true →
  run E (bode (matlab_args entries (Some w) ++ extra :: rest) kw) σ
  = (Raised ControlArgument, σ).
Proof.
  intros Hissys Hhead Hiter Hall Hw Hlist.
  rewrite (run_bode_no_iter _ _ a0) by done.
  unfold matlab_args in *. cbn [from_option] in *.
  rewrite <- app_assoc. cbn [app].
  rewrite (run_bode_scanned _ _ _ _ (entries.*1) (entry_styles entries) w
             (extra :: rest)); [done|].
  rewrite (run_scan_entries E sys Hissys).
  - by rewrite (run_scan_frequencies E sys Hissys).
  - done.
  - intros s b rest' _ [= <- _]. by destruct w.
Qed.

Lemma bode_after_frequencies_witness :
  run scalar_env
    (bode [VRef 1%positive; VRef 2%positive; VRef 6%positive] ∅) sample_state
  = (Raised ControlArgument, sample_state).
Proof.
  apply (bode_after_frequencies scalar_env _ sample_state
           [(VRef 1%positive, None)] (VRef 2%positive) (VRef 6%positive) []
           (VRef 1%positive) ∅ scalar_env_issys).
  - reflexivity.
  - reflexivity.
  - repeat constructor.
  - reflexivity.
  - reflexivity.
Defined.

(** ** rlocus *)

(** X7: [rlocus] returns the gains it used next to the roots.  Without a
    list of gains it asks [logspace(-3, 3)] for one, hands it to
    [RootLocus] and returns it; with a list of gains it does not ask
    [logspace], and returns the list it was given.  The keywords go to
    [RootLocus] as they came. *)
Theorem rlocus_gains E sys klist kw σ :
  gains_given (st_heap σ) klist = true →
  run E (rlocus sys VNone kw) σ
  = match E D_logspace [VInt (-3); VInt 3] ∅ σ with
    | (Returned gains, σ') => root_locus_with E sys gains kw σ'
    | (Raised e, σ') => (Raised e, σ')
    end
  ∧ run E (rlocus sys klist kw) σ = root_locus_with E sys klist kw σ.
Proof.
  intros Hgiven. unfold rlocus, root_locus_with. split.
  - rewrite run_bind. cbn [eq_None run]. rewrite run_bind, run_call.
    destruct (E D_logspace _ ∅ σ) as [[gains|e] σ']; [|done].
    rewrite run_bind, run_call.
    by destruct (E D_RootLocus _ kw σ') as [[rlist|e] σ''].
  - rewrite run_bind.
    assert (run E (eq_None klist) σ = (Returned false, σ)) as ->.
    { destruct klist; try done. simpl in *.
      by destruct (st_heap σ !! l) as [[]|]. }
    rewrite run_bind. cbn [run]. rewrite run_bind, run_call.
    by destruct (E D_RootLocus _ kw σ) as [[rlist|e] σ'].
Qed.

Lemma rlocus_gains_witness :
  run gains_env (rlocus (VRef 1%positive) VNone ∅) sample_state
  = (Returned (VTuple [VTuple [VStr "roots"]; VTuple [VInt (-3); VInt 3]]),
     sample_state)
  ∧ run gains_env
      (rlocus (VRef 1%positive) (VTuple [VInt 1; VInt 10]) ∅) sample_state
    = (Returned (VTuple [VTuple [VStr "roots"]; VTuple [VInt 1; VInt 10]]),
       sample_state).
Proof.
  apply (rlocus_gains gains_env (VRef 1%positive) (VTuple [VInt 1; VInt 10])
           ∅ sample_state).
  reflexivity.
Defined.

(** ** The simulation wrappers *)

(** X8: [transpose] cannot be chosen by the caller.  Whatever value the
    keyword arguments give it, each of [step], [impulse], [initial] and
    [lsim] fails with the [TypeError] of a keyword given twice, and the
    routine of [timeresp] is not called. *)
Theorem simulation_rejects_transpose (w : simulation) (params : list value)
    (keywords : kwargs) (v : value) E σ :
  length params = sim_arity w →
  keywords !! "transpose" = Some v →
  simulate w params keywords = Fault TypeError
  ∧ run E (simulate w params keywords) σ = (Raised TypeError, σ).
Proof.
  intros Hlen Hkw.
  assert (simulate w params keywords = Fault TypeError) as ->; [|done].
  destruct w; destruct params as [|a [|b [|c [|d [|e [|f rest]]]]]];
    try discriminate Hlen; simpl;
    unfold step, impulse, initial, lsim, with_keyword; by rewrite Hkw.
Qed.

Lemma simulation_rejects_transpose_witness :
  simulate S_lsim [VRef 1%positive; VFloat 0; VNone; VFloat 0]
    {[ "transpose" := VBool true ]} = Fault TypeError
  ∧ run scalar_env
      (simulate S_lsim [VRef 1%positive; VFloat 0; VNone; VFloat 0]
         {[ "transpose" := VBool true ]}) sample_state
    = (Raised TypeError, sample_state).
Proof.
  assert (({[ "transpose" := VBool true ]} : kwargs) !! "transpose"
          = Some (VBool true)) as Hkw by reflexivity.
  exact (simulation_rejects_transpose S_lsim
           [VRef 1%positive; VFloat 0; VNone; VFloat 0] _ (VBool true)
           scalar_env sample_state eq_refl Hkw).
Defined.

(** X9: the routines of [timeresp] must answer with as many results as the
    wrapper unpacks.  When the routine returns a tuple of any other length
    (two for [step], [impulse] and [initial], three for [lsim]) the wrapper
    fails with [ValueError], after the routine has run. *)
Theorem simulation_wrong_length (w : simulation) (params : list value)
    (keywords : kwargs) E σ σ' (items : list value) :
  length params = sim_arity w →
  keywords !! "transpose" = None →
  E (sim_routine w) (sim_forwarded w params)
    (<["transpose" := VBool true]> keywords) σ
  = (Returned (VTuple items), σ') →
  length items ≠ sim_results w →
  run E (simulate w params keywords) σ = (Raised ValueError, σ').
Proof.
  intros Hlen Hkw HE Hitems.
  destruct w; destruct params as [|a [|b [|c [|d [|e [|f rest]]]]]];
    try discriminate Hlen; cbn [simulate sim_routine sim_forwarded] in *;
    unfold step, impulse, initial, lsim, with_keyword; rewrite Hkw;
    cbn [mbind prog_mbind prog_bind]; rewrite run_bind, run_call, HE;
    unfold as_tuple, unpack, exactly; cbn [sim_results] in Hitems;
    by case_decide.
Qed.

Lemma simulation_wrong_length_witness :
  run (λ d args kw σ, (Returned (VTuple [VStr "T"; VStr "yout"]), σ))
    (simulate S_lsim [VRef 1%positive; VFloat 0; VNone; VFloat 0] ∅)
    sample_state
  = (Raised ValueError, sample_state).
Proof.
  assert ((∅ : kwargs) !! "transpose" = None) as Hkw by reflexivity.
  apply (simulation_wrong_length S_lsim
           [VRef 1%positive; VFloat 0; VNone; VFloat 0] ∅
           (λ d args kw σ, (Returned (VTuple [VStr "T"; VStr "yout"]), σ))
           sample_state sample_state [VStr "T"; VStr "yout"] eq_refl Hkw
           eq_refl).
  simpl. lia.
Defined.

(** ** margin *)

(** X10: [margin] reads the elements 0, 1, 3 and 4 of what
    [freqplot.margin] returns.  A tuple of fewer than five elements makes it
    fail with [IndexError], after [freqplot.margin] has run. *)
Theorem margin_short_answer (args : list value) E σ σ' (items : list value) :
  length args = 1%nat ∨ length args = 3%nat →
  E D_freqplot_margin [margin_input args] ∅ σ
  = (Returned (VTuple items), σ') →
  (length items < 5)%nat →
  run E (margin args) σ = (Raised IndexError, σ').
Proof.
  intros Hlen HE Hshort.
  assert (run E (margin args) σ
          = run E (m0 ← index (VTuple items) 0;
                   m1 ← index (VTuple items) 1;
                   m3 ← index (VTuple items) 3;
                   m4 ← index (VTuple items) 4;
                   Ret (VTuple [m0; m1; m3; m4])) σ') as ->.
  { unfold margin. rewrite run_bind.
    destruct args as [|a [|b [|c [|d rest]]]]; simpl in Hlen; try lia;
      cbn [margin_input] in HE; by rewrite run_call, HE. }
  destruct items as [|v0 [|v1 [|v2 [|v3 [|v4 more]]]]]; simpl in Hshort;
    try lia; done.
Qed.

Lemma margin_short_answer_witness :
  run (λ d args kw σ, (Returned (VTuple [VStr "gm"; VStr "pm"; VStr "wg";
                                        VStr "wp"]), σ))
    (margin [VRef 1%positive]) sample_state
  = (Raised IndexError, sample_state).
Proof.
  apply (margin_short_answer [VRef 1%positive]
           (λ d args kw σ, (Returned (VTuple [VStr "gm"; VStr "pm"; VStr "wg";
                                               VStr "wp"]), σ))
           sample_state sample_state [VStr "gm"; VStr "pm"; VStr "wg";
                                      VStr "wp"]).
  - by left.
  - reflexivity.
  - simpl. lia.
Defined.

(** ** dcgain *)

(** X11: the zero, pole, gain form of [dcgain] is its state space form
    applied to what [zpk2ss] returns: when [zpk2ss(Z, P, k)] answers with
    four matrices, [dcgain(Z, P, k)] goes on as [dcgain(A, B, C, D)] does
    with them. *)
Theorem dcgain_zero_pole_gain E σ σ' (z p k a b c d : value) :
  E D_zpk2ss [z; p; k] ∅ σ = (Returned (VTuple [a; b; c; d]), σ') →
  run E (dcgain [z; p; k]) σ = run E (dcgain [a; b; c; d]) σ'.
Proof.
  intros HE. unfold dcgain. rewrite !run_bind.
  cbn [dcgain_system]. by rewrite run_bind, run_call, HE.
Qed.

Lemma dcgain_zero_pole_gain_witness :
  run scalar_env (dcgain [VNone; VFloat (-2); VFloat 3]) sample_state
  = run scalar_env (dcgain [VFloat (-2); VFloat 1; VFloat 3; VFloat 0])
      sample_state.
Proof.
  apply (dcgain_zero_pole_gain scalar_env sample_state sample_state
           VNone (VFloat (-2)) (VFloat 3)).
  reflexivity.
Defined.

(** X12: the transfer function form of [dcgain] agrees with [tf]: when
    [TransferFunction] returns an instance of its class,
    [dcgain(tf(num, den))] is [dcgain(num, den)]. *)
Theorem dcgain_of_tf E σ (num den : value) :
  constructs E D_TransferFunction [num; den] σ BTransferFunction →
  run E (t ← tf [num; den]; dcgain [t]) σ = run E (dcgain [num; den]) σ.
Proof.
  unfold constructs, dcgain. intros Htf. rewrite !run_bind.
  cbn [tf dcgain_system tf2ss]. rewrite run_two_calls, run_call.
  destruct (E D_TransferFunction [num; den] ∅ σ) as [[t|e] σ1]; [|done].
  cbn [feed]. by rewrite run_bind, run_ss_transfer_function.
Qed.

Lemma dcgain_of_tf_witness :
  run scalar_env (t ← tf [VFloat 3; VFloat 2]; dcgain [t]) sample_state
  = run scalar_env (dcgain [VFloat 3; VFloat 2]) sample_state.
Proof.
  apply (dcgain_of_tf scalar_env sample_state). vm_compute. reflexivity.
Defined.

(** X13: [dcgain] has no answer for a system whose matrix [A] cannot be
    inverted.  Once the system is in state space form, [sys.D], [sys.C] and
    [sys.A] are read and [sys.A.I] is asked for; the exception this raises
    is the outcome of [dcgain], and no product or difference is computed. *)
Theorem dcgain_inverse_fails E (args : list value) σ σ' σ''
    (sys A C D : value) (e : exn) :
  run E (dcgain_system args) σ = (Returned sys, σ') →
  py_getattr (st_heap σ') sys "D" = Some D →
  py_getattr (st_heap σ') sys "C" = Some C →
  py_getattr (st_heap σ') sys "A" = Some A →
  E D_matrix_I [A] ∅ σ' = (Raised e, σ'') →
  run E (dcgain args) σ = (Raised e, σ'').
Proof.
  intros Hsys HD HC HA Hinv.
  unfold dcgain. rewrite run_bind, Hsys. unfold gain_of, attr. simpl.
  rewrite HD. simpl. rewrite HC. simpl. rewrite HA. simpl. by rewrite Hinv.
Qed.

Lemma dcgain_inverse_fails_witness :
  run scalar_env (dcgain [VFloat 0; VFloat 1; VFloat 3; VFloat 0]) empty_state
  = (Raised (ExternalError "LinAlgError"),
     (run scalar_env (ss [VFloat 0; VFloat 1; VFloat 3; VFloat 0])
        empty_state).2).
Proof.
  apply (dcgain_inverse_fails scalar_env
           [VFloat 0; VFloat 1; VFloat 3; VFloat 0] empty_state
           (run scalar_env (ss [VFloat 0; VFloat 1; VFloat 3; VFloat 0])
              empty_state).2
           (run scalar_env (ss [VFloat 0; VFloat 1; VFloat 3; VFloat 0])
              empty_state).2
           (VRef (fresh (dom (∅ : heap)))) (VFloat 0) (VFloat 3) (VFloat 0));
    reflexivity.
Defined.

(** ** Every function of the file *)

(** The scan of [bode] is made of calls, looks at the store and a [raise];
    what holds of programs built so holds of it. *)
Lemma bode_scan_built
    (P : prog (list value * list value * value * list value) → Prop) :
  (∀ r, P (Ret r)) → (∀ e, P (Raise e)) →
  (∀ d args kw k, (∀ v, P (k v)) → P (Call d args kw k)) →
  (∀ k, (∀ h, P (k h)) → P (GetHeap k)) →
  ∀ rest syslist plotstyle, P (bode_scan rest syslist plotstyle).
Proof.
  intros Hret Hraise Hcall Hget rest.
  assert (∀ n rest syslist plotstyle,
            (length rest ≤ n)%nat → P (bode_scan rest syslist plotstyle))
    as Hn; [|by eauto].
  clear rest. intros n.
  induction n as [|n IH]; intros [|a rest] syslist plotstyle Hlen;
    simpl in Hlen; try lia; cbn [bode_scan]; auto.
  apply Hcall. intros r. apply Hget. intros h. case_match.
  - destruct rest as [|b rest'].
    + apply IH. simpl. lia.
    + case_match; apply IH; simpl in *; lia.
  - apply Hget. intros h'. by case_match.
Qed.












Section frames.
Context (E : env).
Hypothesis Hframe : env_frame E.

Lemma frames_ret {A} (a : A) : frames E (Ret a).
Proof. by intros σ l Hl. Qed.

Lemma frames_fault {A} e : frames E (Fault e : prog A).
Proof. by intros σ l Hl. Qed.

Lemma frames_Call {A} d args kw (k : value → prog A) :
  (∀ v, frames E (k v)) → frames E (Call d args kw k).
Proof.
  intros Hk. apply (frames_bind E (call d args kw) k); [|done].
  by apply frames_call.
Qed.

Lemma frames_print {A} line (k : prog A) : frames E k → frames E (Print line k).
Proof. intros Hk σ l Hl. apply (Hk (put_line line σ) l Hl). Qed.

(** A new object takes a place of its own. *)
Lemma frames_alloc o : frames E (alloc o).
Proof.
  intros σ l Hl. simpl. apply lookup_insert_ne. intros <-.
  by apply is_fresh in Hl.
Qed.

Lemma frames_index v i : frames E (index v i).
Proof.
  destruct v; cbn [index]; try apply frames_fault;
    try (case_match; [apply frames_ret|apply frames_fault]).
  apply frames_GetHeap. intros h.
  repeat case_match;
    try apply frames_ret; try apply frames_fault; by apply frames_call.
Qed.

Lemma frames_unpack n v : frames E (unpack n v).
Proof.
  assert (∀ items, frames E (exactly n items)) as Hexactly.
  { intros items. unfold exactly.
    case_decide; [apply frames_ret|apply frames_fault]. }
  destruct v; cbn [unpack]; try apply frames_fault; try done.
  apply frames_GetHeap. intros h.
  repeat case_match; try done;
    apply frames_Call; intros r; destruct r; try apply frames_fault; done.
Qed.

Lemma frames_attr v name : frames E (attr v name).
Proof.
  apply frames_GetHeap. intros h.
  case_match; [apply frames_ret|apply frames_fault].
Qed.

Lemma frames_with_keyword name v keywords :
  frames E (with_keyword name v keywords).
Proof.
  unfold with_keyword. case_match; [apply frames_fault|apply frames_ret].
Qed.

Lemma frames_eq_None v : frames E (eq_None v).
Proof.
  destruct v; cbn [eq_None]; try apply frames_ret.
  apply frames_GetHeap. intros h. repeat case_match; try apply frames_ret.
  apply frames_bind; [by apply frames_call|]. intros r.
  apply frames_GetHeap. intros h'. apply frames_ret.
Qed.

Lemma frames_bode args keywords : frames E (bode args keywords).
Proof.
  destruct args as [|a0 args]; [apply frames_fault|].
  apply frames_GetHeap. intros h. case_match; [by apply frames_call|].
  unfold bode_matlab. apply frames_bind.
  - apply bode_scan_built;
      auto using frames_ret, frames_raise, frames_Call, frames_GetHeap.
  - intros [[[syslist plotstyle] omega] rest].
    assert (frames E (systems ← alloc (OList syslist);
                      call D_freqplot_bode [systems; omega] keywords))
      as Hcall.
    { apply frames_bind; [apply frames_alloc|]. intros systems.
      by apply frames_call. }
    repeat case_match; try apply frames_raise; [by apply frames_print|done].
Qed.

Lemma frames_dcgain args : frames E (dcgain args).
Proof.
  apply frames_bind.
  - destruct args as [|a [|b [|c [|d [|x rest]]]]]; cbn [dcgain_system];
      try apply frames_raise;
      try (by apply (frames_convert E C_ss));
      try (by apply (frames_convert E C_tf2ss)).
    apply frames_bind; [by apply frames_call|]. intros r.
    apply frames_bind; [apply frames_unpack|].
    intros abcd. by apply (frames_convert E C_ss).
  - intros sys. unfold gain_of.
    repeat (apply frames_bind;
            [apply frames_attr || by apply frames_call|]; intros ?).
    by apply frames_call.
Qed.

Lemma frames_simulation d args keywords n :
  frames E (kw ← with_keyword "transpose" (VBool true) keywords;
            r ← call d args kw;
            as_tuple n r).
Proof.
  apply frames_bind; [apply frames_with_keyword|]. intros kw.
  apply frames_bind; [by apply frames_call|]. intros r.
  apply frames_bind; [apply frames_unpack|]. intros items. apply frames_ret.
Qed.

Lemma frames_program c : frames E (program c).
Proof.
  destruct c; cbn [program];
    try (by apply frames_call); try apply frames_simulation.
  - by apply (frames_convert E C_ss).
  - by apply (frames_convert E C_tf).
  - by apply (frames_convert E C_ss2tf).
  - by apply (frames_convert E C_tf2ss).
  - apply frames_bode.
  - apply frames_bind; [by apply frames_call|]. intros _. apply frames_ret.
  - apply frames_bind; [apply frames_eq_None|]. intros unset.
    apply frames_bind.
    + destruct unset; [by apply frames_call|apply frames_ret].
    + intros klist'. apply frames_bind; [by apply frames_call|].
      intros rlist. apply frames_ret.
  - apply frames_bind.
    + destruct args as [|a [|b [|c [|d rest]]]];
        try apply frames_raise; by apply frames_call.
    + intros margins.
      repeat (apply frames_bind; [apply frames_index|]; intros ?).
      apply frames_ret.
  - apply frames_dcgain.
Qed.
End frames.

(** X15: no function of the file changes an object that exists.  When the
    routines outside the file leave the existing objects as they are, so
    does every call of a function of the file: what it adds to the store,
    the copies made by [ss] and [tf] and the list of systems of [bode], is
    put in new places. *)
Theorem functions_leave_objects_alone (c : application) E σ l :
  env_frame E →
  l ∈ dom (st_heap σ) →
  st_heap (run E (program c) σ).2 !! l = st_heap σ !! l.
Proof. intros HE. by apply frames_program. Qed.

Lemma functions_leave_objects_alone_witness :
  st_heap (run scalar_env (program (A_bode [VRef 1%positive; VRef 6%positive] ∅))
             sample_state).2 !! 1%positive
  = st_heap sample_state !! 1%positive.
Proof.
  apply (functions_leave_objects_alone
           (A_bode [VRef 1%positive; VRef 6%positive] ∅) scalar_env
           sample_state 1%positive).
  - apply scalar_env_frame.
  - apply (bool_decide_unpack _). vm_compute. exact I.
Defined.

(** *** Standard output *)

Lemma print_free_bind {A B} (p : prog A) (f : A → prog B) :
  print_free p → (∀ a, print_free (f a)) → print_free (p ≫= f).
Proof.
  intros Hp Hf.
  induction p as [| | |d args kw k IH|k IH|h k IH|x k IH|x v k IH|s k IH];
    simpl in *; auto.
Qed.

Lemma run_print_free {A} E (p : prog A) σ :
  env_quiet E → print_free p → st_stdout (run E p σ).2 = st_stdout σ.
Proof.
  intros HE. revert σ.
  induction p as [| | |d args kw k IH|k IH|h k IH|x k IH|x v k IH|s k IH];
    intros σ Hp; simpl in *; try done.
  - specialize (HE d args kw σ).
    destruct (E d args kw σ) as [[v|e] σ']; simpl in *; [|done].
    rewrite <- HE. by apply IH.
  - by apply IH.
  - by apply (IH (set_heap h σ)).
  - by apply IH.
  - by apply (IH (set_global x v σ)).
Qed.

Lemma print_free_deepcopy v : print_free (deepcopy v).
Proof. intros h. by destruct (py_deepcopy h v). Qed.

Lemma print_free_convert w args : print_free (convert w args).
Proof.
  destruct w; destruct args as [|a [|b [|c [|d [|x rest]]]]]; simpl; auto;
    intros h; repeat case_match; simpl; auto using print_free_deepcopy;
    intros h'; case_match; simpl; auto.
Qed.

Lemma print_free_index v i : print_free (index v i).
Proof.
  destruct v; simpl; try done; try by case_match.
  intros h. repeat case_match; simpl; auto.
Qed.

Lemma print_free_unpack n v : print_free (unpack n v).
Proof.
  assert (∀ items, print_free (exactly n items)) as Hexactly.
  { intros items. unfold exactly. by case_decide. }
  destruct v; cbn [unpack]; try done.
  intros h. repeat case_match; try done; intros r; by destruct r.
Qed.

Lemma print_free_attr v name : print_free (attr v name).
Proof. intros h. by case_match. Qed.

Lemma print_free_with_keyword name v keywords :
  print_free (with_keyword name v keywords).
Proof. unfold with_keyword. by case_match. Qed.

Lemma print_free_eq_None v : print_free (eq_None v).
Proof.
  destruct v; simpl; try done. intros h. repeat case_match; simpl; auto.
Qed.

Lemma print_free_dcgain args : print_free (dcgain args).
Proof.
  apply print_free_bind.
  - destruct args as [|a [|b [|c [|d [|x rest]]]]]; cbn [dcgain_system];
      try done; try apply (print_free_convert C_ss).
    apply print_free_bind; [by simpl|]. intros r.
    apply print_free_bind; [apply print_free_unpack|].
    intros abcd. apply (print_free_convert C_ss).
  - intros sys. unfold gain_of.
    repeat (apply print_free_bind; [apply print_free_attr || by simpl|];
            intros ?).
    by simpl.
Qed.

Lemma print_free_simulation d args keywords n :
  print_free (kw ← with_keyword "transpose" (VBool true) keywords;
              r ← call d args kw;
              as_tuple n r).
Proof.
  apply print_free_bind; [apply print_free_with_keyword|]. intros kw.
  apply print_free_bind; [by simpl|]. intros r.
  apply print_free_bind; [apply print_free_unpack|done].
Qed.

Lemma print_free_program c : is_bode c = false → print_free (program c).
Proof.
  destruct c; cbn [program is_bode]; intros Hc; try done;
    try apply print_free_simulation.
  - apply (print_free_convert C_ss).
  - apply (print_free_convert C_tf).
  - apply (print_free_convert C_ss2tf).
  - apply (print_free_convert C_tf2ss).
  - apply print_free_bind; [apply print_free_eq_None|]. intros unset.
    apply print_free_bind; [by destruct unset|]. by simpl.
  - apply print_free_bind.
    + destruct args as [|a [|b [|c [|d rest]]]]; by simpl.
    + intros margins.
      repeat (apply print_free_bind; [apply print_free_index|]; intros ?).
      done.
  - apply print_free_dcgain.
Qed.

(** X16: the functions of the file print nothing, but for the one warning
    of [bode].  With routines outside the file that print nothing, a call
    leaves standard output as it was, or is a call of [bode] that added the
    line about plot styles, once. *)
Theorem only_bode_prints (c : application) E σ :
  env_quiet E →
  st_stdout (run E (program c) σ).2 = st_stdout σ
  ∨ (is_bode c = true
     ∧ st_stdout (run E (program c) σ).2
       = (st_stdout σ ++ [bode_warning])%list).
Proof.
  intros HE. destruct (is_bode c) eqn:Hc;
    [|left; by apply run_print_free, print_free_program].
  destruct c as [| | | | | | | | | |args kw| | | | | | | |]; try done.
  cbn [program]. destruct args as [|a0 args]; [by left|]. cbn [bode run].
  case_match; [left; by rewrite run_call|].
  unfold bode_matlab. rewrite run_bind.
  assert (st_stdout (run E (bode_scan (a0 :: args) [] []) σ).2 = st_stdout σ)
    as Hscan.
  { apply run_print_free; [done|]. by apply bode_scan_built. }
  destruct (run E (bode_scan (a0 :: args) [] []) σ)
    as [[[[[syslist plotstyle] omega] rest]|e] σ1]; simpl in Hscan;
    [|by left].
  rewrite <- Hscan.
  assert (∀ σ2, st_stdout
            (run E (systems ← alloc (OList syslist);
                    call D_freqplot_bode [systems; omega] kw) σ2).2
          = st_stdout σ2) as Hcall.
  { intros σ2. by apply run_print_free. }
  repeat case_match; try (by left); cbn [negb id run].
  right. split; [done|]. by rewrite Hcall.
Qed.

Lemma scalar_env_quiet : env_quiet scalar_env.
Proof.
  intros d args kw σ. unfold scalar_env, answer, unsupported, new_instance.
  destruct d; destruct args as [|a [|b [|c [|x [|y [|z rest]]]]]];
    try reflexivity; repeat case_match; reflexivity.
Qed.

Lemma only_bode_prints_witness :
  st_stdout
    (run scalar_env (program (A_bode [VRef 1%positive; VStr "r"] ∅))
       sample_state).2
  = st_stdout sample_state
  ∨ (is_bode (A_bode [VRef 1%positive; VStr "r"] ∅) = true
     ∧ st_stdout
         (run scalar_env (program (A_bode [VRef 1%positive; VStr "r"] ∅))
            sample_state).2
       = (st_stdout sample_state ++ [bode_warning])%list).
Proof.
  apply (only_bode_prints (A_bode [VRef 1%positive; VStr "r"] ∅) scalar_env
           sample_state).
  apply scalar_env_quiet.
Defined.

(** ** What the scan of bode collects *)

Lemma run_bode_scan_collects E n rest0 syslist0 plotstyle0 σ σ'
    syslist plotstyle omega rest :
  (length rest0 ≤ n)%nat →
  run E (bode_scan rest0 syslist0 plotstyle0) σ
  = (Returned (syslist, plotstyle, omega, rest), σ') →
  ∃ systems styles,
    syslist = (syslist0 ++ systems)%list
    ∧ plotstyle = (plotstyle0 ++ styles)%list
    ∧ systems `sublist_of` rest0
    ∧ styles `sublist_of` rest0
    ∧ Forall (λ v, py_is_str v = true) styles
    ∧ (length styles ≤ length systems)%nat
    ∧ rest `suffix_of` rest0
    ∧ (omega = VNone ∧ rest = []
       ∧ (length systems + length styles = length rest0)%nat
       ∨ omega ∈ rest0
         ∧ py_is_list_or_ndarray (st_heap σ') omega = true
         ∧ (length systems + length styles + 1 + length rest
            = length rest0)%nat).
Proof.
  revert rest0 syslist0 plotstyle0 σ.
  induction n as [|n IH]; intros [|a rest1] syslist0 plotstyle0 σ Hlen Hrun;
    simpl in Hlen; try lia.
  1,2: simplify_eq/=; exists [], []; rewrite !app_nil_r;
    split_and!; auto using sublist_nil_l; by left.
  cbn [bode_scan run] in Hrun.
  destruct (E D_issys [a] ∅ σ) as [[r|e] σ1]; [|done]. cbn [run] in Hrun.
  destruct (py_truthy (st_heap σ1) r).
  - assert (∃ styled rest2,
              (length rest2 ≤ n)%nat
              ∧ rest1 = (styled ++ rest2)%list
              ∧ (length styled ≤ 1)%nat
              ∧ Forall (λ v, py_is_str v = true) styled
              ∧ run E (bode_scan rest2 (syslist0 ++ [a])
                         (plotstyle0 ++ styled)) σ1
                = (Returned (syslist, plotstyle, omega, rest), σ'))
      as (styled & rest2 & Hlen2 & -> & Hone & Hstr & Hrun2).
    { destruct rest1 as [|b rest2].
      - exists [], []. rewrite !app_nil_r.
        split_and!; [simpl; lia|done|simpl; lia|apply Forall_nil_2|done].
      - destruct (py_is_str b) eqn:Hb.
        + exists [b], rest2. simpl in *.
          split_and!; [lia|done|lia|by apply Forall_singleton|done].
        + exists [], (b :: rest2). rewrite !app_nil_r. simpl in *.
          split_and!; [lia|done|lia|apply Forall_nil_2|done]. }
    destruct (IH _ _ _ _ Hlen2 Hrun2)
      as (systems & styles & -> & -> & Hsys & Hsty & Hstrs & Hle & Hsuf & Hom).
    exists (a :: systems), (styled ++ styles)%list.
    rewrite <- !app_assoc. split_and!; try done.
    + apply sublist_skip. by apply sublist_inserts_l.
    + apply sublist_cons. by apply sublist_app.
    + by apply Forall_app.
    + rewrite length_app. simpl. lia.
    + apply suffix_cons_r. by apply suffix_app_r.
    + rewrite !length_app in *. simpl.
      destruct Hom as [(-> & -> & Hcount)|(Hin & Hlist & Hcount)].
      * left. split_and!; try done. rewrite length_app. lia.
      * right. split_and!; try done; [|rewrite length_app; lia].
        apply elem_of_cons. right. apply elem_of_app. by right.
  - cbn [run] in Hrun.
    destruct (py_is_list_or_ndarray (st_heap σ1) a) eqn:Hlist; [|done].
    simplify_eq/=. exists [], []. rewrite !app_nil_r.
    split_and!; auto using sublist_nil_l.
    + by apply suffix_cons_r.
    + right. split_and!; try done. apply elem_of_cons. by left.
Qed.

(** X17: what the scan of [bode] collects comes from the arguments, whatever
    [issys] answers.  When the loop ends without an exception, the systems
    are arguments in the order given; the plot styles are strings among the
    arguments, no more of them than systems; what is left is an end piece
    of the arguments; and either no frequencies were found, all arguments
    were read and each is a system or a plot style, or the frequencies are
    one argument, a list or an array, and the systems, the plot styles, the
    frequencies and what is left account for every argument. *)
Theorem bode_scan_collects E args σ σ' syslist plotstyle omega rest :
  run E (bode_scan args [] []) σ
  = (Returned (syslist, plotstyle, omega, rest), σ') →
  syslist `sublist_of` args
  ∧ plotstyle `sublist_of` args
  ∧ Forall (λ v, py_is_str v = true) plotstyle
  ∧ (length plotstyle ≤ length syslist)%nat
  ∧ rest `suffix_of` args
  ∧ (omega = VNone ∧ rest = []
     ∧ (length syslist + length plotstyle = length args)%nat
     ∨ omega ∈ args
       ∧ py_is_list_or_ndarray (st_heap σ') omega = true
       ∧ (length syslist + length plotstyle + 1 + length rest
          = length args)%nat).
Proof.
  intros Hrun.
  destruct (run_bode_scan_collects E (length args) args [] [] σ σ'
              syslist plotstyle omega rest (le_n _) Hrun)
    as (systems & styles & -> & -> & H).
  exact H.
Qed.

Lemma bode_scan_collects_witness :
  [VRef 1%positive; VRef 6%positive]
    `sublist_of` [VRef 1%positive; VStr "r"; VRef 6%positive; VRef 2%positive;
                  VNone]
  ∧ [VStr "r"]
      `sublist_of` [VRef 1%positive; VStr "r"; VRef 6%positive;
                    VRef 2%positive; VNone]
  ∧ Forall (λ v, py_is_str v = true) [VStr "r"]
  ∧ (length [VStr "r"] ≤ length [VRef 1%positive; VRef 6%positive])%nat
  ∧ [VNone] `suffix_of` [VRef 1%positive; VStr "r"; VRef 6%positive;
                         VRef 2%positive; VNone]
  ∧ (VRef 2%positive = VNone ∧ [VNone] = []
     ∧ (length [VRef 1%positive; VRef 6%positive] + length [VStr "r"]
        = length [VRef 1%positive; VStr "r"; VRef 6%positive;
                  VRef 2%positive; VNone])%nat
     ∨ VRef 2%positive ∈ [VRef 1%positive; VStr "r"; VRef 6%positive;
                          VRef 2%positive; VNone]
       ∧ py_is_list_or_ndarray (st_heap sample_state) (VRef 2%positive) = true
       ∧ (length [VRef 1%positive; VRef 6%positive] + length [VStr "r"] + 1
          + length [VNone]
          = length [VRef 1%positive; VStr "r"; VRef 6%positive;
                    VRef 2%positive; VNone])%nat).
Proof.
  apply (bode_scan_collects scalar_env
           [VRef 1%positive; VStr "r"; VRef 6%positive; VRef 2%positive; VNone]
           sample_state sample_state).
  reflexivity.
Defined.
